(** * deltacode: the JSON test harness ([src/deltacode/cli_test_utils.py])

    A shallow embedding of the functions that load, normalise and compare
    DeltaCode scan results, together with the properties that the
    specification states about them.

    Conventions of the embedding:
    - a Python [unicode] string is a list of code points ([ustr]);
    - a decoded JSON document is a tree ([json]); an [OrderedDict] is an
      association list in insertion order, its keys being unique;
      floating point numbers are left out;
    - a function that mutates its argument in place returns the argument
      after the call together with the exception it raised, if any;
    - the Python runtime ([<] on decoded values, [json.loads],
      [json.dumps], writing text to a binary file, [os.path.join] on
      text and bytes) is a parameter of the development, and so are the
      subprocess and the Click runner. *)

From Stdlib Require Import List NArith ZArith Bool Lia String Ascii.
From Stdlib Require Import Permutation Sorted DecimalString.
Import ListNotations.

Set Implicit Arguments.
Set Warnings "-register-all".


(* ------------------------------------------------------------------ *)
(** ** Unicode strings *)

Definition ustr := list N.

Definition u (s : string) : ustr :=
  List.map N_of_ascii (list_ascii_of_string s).

Fixpoint ustr_eqb (a b : ustr) : bool :=
  match a, b with
  | [], [] => true
  | x :: a', y :: b' => N.eqb x y && ustr_eqb a' b'
  | _, _ => false
  end.

(** Lexicographic order on code points. *)
Fixpoint ustr_ltb (a b : ustr) : bool :=
  match a, b with
  | [], [] => false
  | [], _ :: _ => true
  | _ :: _, [] => false
  | x :: a', y :: b' => N.ltb x y || (N.eqb x y && ustr_ltb a' b')
  end.

(* ------------------------------------------------------------------ *)
(** ** Decoded JSON values and exceptions *)

Inductive json : Type :=
| JNull
| JBool (b : bool)
| JInt (z : Z)
| JStr (s : ustr)
| JList (l : list json)
| JDict (d : list (ustr * json)).

Definition dict := list (ustr * json).

Inductive exn : Type :=
| KeyError | TypeError | AttributeError | ValueError | IOError
| AssertionError.

Inductive result (A : Type) : Type :=
| Ok (a : A)
| Raise (e : exn).
Arguments Ok {A} a.
Arguments Raise {A} e.

Definition bind {A B} (r : result A) (k : A -> result B) : result B :=
  match r with
  | Ok a => k a
  | Raise e => Raise e
  end.

Notation "x <- r ;; k" := (bind r (fun x => k))
  (at level 61, r at next level, right associativity).

Fixpoint mapM {A B} (f : A -> result B) (l : list A) : result (list B) :=
  match l with
  | [] => Ok []
  | a :: l' => b <- f a ;; bs <- mapM f l' ;; Ok (b :: bs)
  end.

(* ------------------------------------------------------------------ *)
(** ** Ordered dictionaries *)

(** [d.get(k)]: the value of the entry with key [k]. *)
Fixpoint dict_get (k : ustr) (d : dict) : option json :=
  match d with
  | [] => None
  | (k', v) :: d' => if ustr_eqb k k' then Some v else dict_get k d'
  end.

(** [d.pop(k, None)]: the entry with key [k] is removed, the others keep
    their order. *)
Definition dict_pop (k : ustr) (d : dict) : dict :=
  filter (fun kv => negb (ustr_eqb k (fst kv))) d.

(** [d[k] = v]: an existing entry keeps its position, a new one goes to
    the end. *)
Fixpoint dict_set (k : ustr) (v : json) (d : dict) : dict :=
  match d with
  | [] => [(k, v)]
  | (k', v') :: d' =>
      if ustr_eqb k k' then (k', v) :: d' else (k', v') :: dict_set k v d'
  end.

Definition dict_keys (d : dict) : list ustr := List.map fst d.

(** [x[k]] for a string key [k]. *)
Definition getitem (k : ustr) (x : json) : result json :=
  match x with
  | JDict d =>
      match dict_get k d with
      | Some v => Ok v
      | None => Raise KeyError
      end
  | _ => Raise TypeError
  end.

(* ------------------------------------------------------------------ *)
(** ** [unicode.splitlines(True)] *)

Definition CR : N := 13.
Definition LF : N := 10.

Definition is_linebreak (c : N) : bool :=
  existsb (N.eqb c) [10; 11; 12; 13; 28; 29; 30; 133; 8232; 8233]%N.

(** The lines of [s], each with its line end; a carriage return followed
    by a line feed is one line end. *)
Fixpoint splitlines (s : ustr) : list ustr :=
  match s with
  | [] => []
  | c :: s' =>
      if is_linebreak c then
        match s' with
        | c2 :: s'' =>
            if N.eqb c CR && N.eqb c2 LF
            then [c; c2] :: splitlines s''
            else [c] :: splitlines s'
        | [] => [[c]]
        end
      else
        match splitlines s' with
        | [] => [[c]]
        | l :: ls => (c :: l) :: ls
        end
  end.

(* ------------------------------------------------------------------ *)
(** ** [streamline_errors] and [streamline_headers] *)

(** [l[i] = v] *)
Fixpoint list_set {A} (i : nat) (v : A) (l : list A) : list A :=
  match l, i with
  | [], _ => []
  | _ :: l', O => v :: l'
  | a :: l', S i' => a :: list_set i' v l'
  end.

(** What the body of the loop stores at index [i], if anything. *)
Definition cleaned_error (error : ustr) : option ustr :=
  let error_lines := splitlines error in
  if Nat.leb (List.length error_lines) 1 then None
  else Some (hd [] error_lines ++ last error_lines []).

(** [for i, error in enumerate(errors[:])]: [copy] is what is left of the
    copy, [errors] the list being modified. *)
Fixpoint streamline_errors_loop (i : nat) (copy errors : list json)
  : list json * option exn :=
  match copy with
  | [] => (errors, None)
  | error :: rest =>
      match error with
      | JStr s =>
          match cleaned_error s with
          | None => streamline_errors_loop (S i) rest errors
          | Some c =>
              streamline_errors_loop (S i) rest (list_set i (JStr c) errors)
          end
      | _ => (errors, Some AttributeError)
      end
  end.

(** A string is sliced and enumerated like a list; each of its items is
    one character, which has at most one line, so nothing is stored. *)
Definition streamline_errors (errors : json) : json * option exn :=
  match errors with
  | JList l =>
      let '(l', e) := streamline_errors_loop 0 l l in (JList l', e)
  | JStr _ => (errors, None)
  | _ => (errors, Some TypeError)
  end.

Definition k_version : ustr := u "deltacode_version".
Definition k_options : ustr := u "deltacode_options".
Definition k_errors : ustr := u "deltacode_errors".
Definition k_deltas : ustr := u "deltas".
Definition k_factors : ustr := u "factors".
Definition k_score : ustr := u "score".
Definition k_headers : ustr := u "headers".

Definition streamline_headers (headers : json) : json * option exn :=
  match headers with
  | JDict d =>
      let d1 := dict_pop k_version d in
      let d2 := dict_pop k_options d1 in
      match dict_get k_errors d2 with
      | None => (JDict d2, Some KeyError)
      | Some errors =>
          let '(errors', e) := streamline_errors errors in
          (JDict (dict_set k_errors errors' d2), e)
      end
  | JList _ => (headers, Some TypeError)
  | _ => (headers, Some AttributeError)
  end.

(* ------------------------------------------------------------------ *)
(** ** [list.sort(key=..., reverse=...)]

    The sort is stable and only uses [<] on the keys.  It is modelled by
    a stable insertion sort; [lt x y] is [None] when the comparison
    raises [TypeError].  Where [<] is a strict weak order the choice of
    the algorithm does not matter: a list has one stable sorting only
    ([stable_sorted_unique] below). *)

Section StableSort.
Variable A : Type.
Variable lt : A -> A -> option bool.

Fixpoint insert (x : A) (l : list A) : result (list A) :=
  match l with
  | [] => Ok [x]
  | y :: l' =>
      match lt y x with
      | None => Raise TypeError
      | Some true => r <- insert x l' ;; Ok (y :: r)
      | Some false => Ok (x :: y :: l')
      end
  end.

Fixpoint stable_sort (l : list A) : result (list A) :=
  match l with
  | [] => Ok []
  | x :: l' => s <- stable_sort l' ;; insert x s
  end.
End StableSort.

(** The same sort for a comparison that never raises. *)
Section InsertionSort.
Variable A : Type.
Variable ltb : A -> A -> bool.

Fixpoint insert_by (x : A) (l : list A) : list A :=
  match l with
  | [] => [x]
  | y :: l' => if ltb y x then y :: insert_by x l' else x :: y :: l'
  end.

Fixpoint isort_by (l : list A) : list A :=
  match l with
  | [] => []
  | x :: l' => insert_by x (isort_by l')
  end.

(** [a] and [b] are tied: neither is smaller. *)
Definition tied (a b : A) : bool := negb (ltb a b) && negb (ltb b a).

(** No element is smaller than one that comes before it. *)
Definition sorted_by (l : list A) : Prop :=
  StronglySorted (fun a b => ltb b a = false) l.

(** The converse comparison: the order of a sort with [reverse]. *)
Definition gtb_of (a b : A) : bool := ltb b a.

(** Order by [ltb], and by [ltb2] among the tied. *)
Definition lex (ltb2 : A -> A -> bool) (a b : A) : bool :=
  ltb a b || (tied a b && ltb2 a b).
End InsertionSort.

Section Harness.
(** [x < y] on decoded JSON values. *)
Variable py_lt : json -> json -> option bool.
(** [json.loads(s, object_pairs_hook=OrderedDict)]; [None] when [s] is
    not a JSON document ([ValueError]). *)
Variable json_loads : ustr -> option json.
(** [json.dumps(x, indent=2, sort_keys=..., separators=(',', ': '))] *)
Variable json_dumps : bool -> json -> ustr.
(** [reg.write(text)] on a file opened with ['wb'], as [json.dump] does:
    what the file holds afterwards; [None] where writing text to a
    binary file raises [TypeError], as on Python 3. *)
Variable write_binary : ustr -> option ustr.

Definition lt_keys (p q : json * json) : option bool :=
  py_lt (fst p) (fst q).

(** The keys are computed first, then the list is sorted on them; with
    [reverse] the list is reversed, sorted and reversed again. *)
Definition list_sort (key : json -> result json) (reverse : bool)
    (l : list json) : result (list json) :=
  keys <- mapM key l ;;
  let decorated := combine keys l in
  sorted <-
    (if reverse
     then r <- stable_sort lt_keys (rev decorated) ;; Ok (rev r)
     else stable_sort lt_keys decorated) ;;
  Ok (List.map snd sorted).

(** [scan_results['deltas'].sort(key=lambda x: x[k], reverse=...)] *)
Definition sort_deltas (k : ustr) (reverse : bool) (scan_results : json)
  : result json :=
  deltas <- getitem k_deltas scan_results ;;
  match deltas, scan_results with
  | JList ds, JDict d =>
      ds' <- list_sort (getitem k) reverse ds ;;
      Ok (JDict (dict_set k_deltas (JList ds') d))
  | _, _ => Raise AttributeError
  end.

(** The body of [load_json_result_from_string] after decoding. *)
Definition load_scan_results (scan_results : json) : result json :=
  match streamline_headers scan_results with
  | (_, Some e) => Raise e
  | (scan_results, None) =>
      scan_results <- sort_deltas k_factors false scan_results ;;
      sort_deltas k_score true scan_results
  end.

Definition load_json_result_from_string (string : ustr)
    (remove_file_date : bool) : result json :=
  match json_loads string with
  | None => Raise ValueError
  | Some scan_results => load_scan_results scan_results
  end.

(** Files: the decoded text of each file that exists. *)
Definition files := String.string -> option ustr.

Definition write_file (fs : files) (location : String.string)
    (text : ustr) : files :=
  fun p => if String.eqb p location then Some text else fs p.

Definition load_json_result (fs : files) (location : String.string)
    (remove_file_date : bool) : result json :=
  match fs location with
  | None => Raise IOError
  | Some scan_results =>
      load_json_result_from_string scan_results remove_file_date
  end.

(** [x.pop('headers', None)] *)
Definition pop_headers (x : json) : result json :=
  match x with
  | JDict d => Ok (JDict (dict_pop k_headers d))
  | JList _ => Raise TypeError
  | _ => Raise AttributeError
  end.

(** What [check_json_scan] compares: the file at [location] loaded,
    without its ['headers'] entry when [ignore_headers] is set, and
    serialised again with sorted keys. *)
Definition normalised (fs : files) (location : String.string)
    (remove_file_date ignore_headers : bool) : result ustr :=
  x <- load_json_result fs location remove_file_date ;;
  x <- (if ignore_headers then pop_headers x else Ok x) ;;
  Ok (json_dumps true x).

(** [check_json_scan] from the loading of the expected file on. *)
Definition check_loaded (fs : files) (expected_file : String.string)
    (results : json) (remove_file_date ignore_headers : bool)
  : files * result unit :=
  match load_json_result fs expected_file remove_file_date with
  | Raise e => (fs, Raise e)
  | Ok expected =>
      let popped :=
        if ignore_headers
        then r <- pop_headers results ;;
             e <- pop_headers expected ;; Ok (r, e)
        else Ok (results, expected) in
      match popped with
      | Raise e => (fs, Raise e)
      | Ok (results, expected) =>
          let expected := json_dumps true expected in
          let results := json_dumps true results in
          if ustr_eqb expected results
          then (fs, Ok tt)
          else (fs, Raise AssertionError)
      end
  end.

(** With [regen] the expected file is opened for writing, which empties
    it, before [json.dump] writes. *)
Definition check_json_scan (fs : files)
    (expected_file result_file : String.string)
    (regen remove_file_date ignore_headers : bool)
  : files * result unit :=
  match load_json_result fs result_file remove_file_date with
  | Raise e => (fs, Raise e)
  | Ok results =>
      if regen then
        match write_binary (json_dumps false results) with
        | Some written =>
            check_loaded (write_file fs expected_file written)
              expected_file results remove_file_date ignore_headers
        | None => (write_file fs expected_file [], Raise TypeError)
        end
      else
        check_loaded fs expected_file results remove_file_date
          ignore_headers
  end.
End Harness.

(* ------------------------------------------------------------------ *)
(** ** The ordering of decoded values

    [py_eq] is [==]: numbers compare by value, two [OrderedDict]s are
    equal when their items are equal in the same order.  [py3_lt] is [<]
    where it is defined without reference to the type names: on numbers,
    on strings and on lists of comparable values; elsewhere (mappings,
    [None], mixed types) Python 3 raises [TypeError]. *)

Definition num_of (x : json) : option Z :=
  match x with
  | JInt z => Some z
  | JBool b => Some (Z.b2z b)
  | _ => None
  end.

Fixpoint py_eq (x y : json) {struct x} : bool :=
  match x, y with
  | JNull, JNull => true
  | JBool a, JBool b => Bool.eqb a b
  | JBool a, JInt z => Z.eqb (Z.b2z a) z
  | JInt z, JBool a => Z.eqb z (Z.b2z a)
  | JInt a, JInt b => Z.eqb a b
  | JStr a, JStr b => ustr_eqb a b
  | JList l1, JList l2 =>
      (fix go (l1 l2 : list json) {struct l1} : bool :=
         match l1, l2 with
         | [], [] => true
         | a :: l1', b :: l2' => py_eq a b && go l1' l2'
         | _, _ => false
         end) l1 l2
  | JDict d1, JDict d2 =>
      (fix go (d1 d2 : list (ustr * json)) {struct d1} : bool :=
         match d1, d2 with
         | [], [] => true
         | (k1, v1) :: d1', (k2, v2) :: d2' =>
             ustr_eqb k1 k2 && py_eq v1 v2 && go d1' d2'
         | _, _ => false
         end) d1 d2
  | _, _ => false
  end.

Fixpoint py3_lt (x y : json) {struct x} : option bool :=
  match x, y with
  | JStr a, JStr b => Some (ustr_ltb a b)
  | JList l1, JList l2 =>
      (fix go (l1 l2 : list json) {struct l1} : option bool :=
         match l1, l2 with
         | [], [] => Some false
         | [], _ :: _ => Some true
         | _ :: _, [] => Some false
         | a :: l1', b :: l2' =>
             if py_eq a b then go l1' l2' else py3_lt a b
         end) l1 l2
  | _, _ =>
      match num_of x, num_of y with
      | Some a, Some b => Some (Z.ltb a b)
      | _, _ => None
      end
  end.

(** A comparison that raises counts as "not smaller". *)
Definition ltb_of {A} (lt : A -> A -> option bool) (x y : A) : bool :=
  match lt x y with
  | Some b => b
  | None => false
  end.

(** Every comparison between two of the keys [ks] returns. *)
Definition comparable (lt : json -> json -> option bool) (ks : list json)
  : bool :=
  forallb (fun x =>
    forallb (fun y => match lt x y with Some _ => true | None => false end)
      ks) ks.

(** On the keys [ks], [<] returns and is a strict weak order: it is
    asymmetric, and [x < z] implies [x < y] or [y < z]. *)
Definition weakly_ordered (lt : json -> json -> option bool)
    (ks : list json) : bool :=
  comparable lt ks &&
  forallb (fun x =>
    forallb (fun y =>
      implb (ltb_of lt x y) (negb (ltb_of lt y x)) &&
      forallb (fun z =>
        implb (ltb_of lt x z) (ltb_of lt x y || ltb_of lt y z)) ks)
      ks) ks.

(** The value of [x[k]], [None] standing for a missing value. *)
Definition item (k : ustr) (x : json) : json :=
  match getitem k x with
  | Ok v => v
  | Raise _ => JNull
  end.

Definition has_item (k : ustr) (x : json) : bool :=
  match getitem k x with
  | Ok _ => true
  | Raise _ => false
  end.

Definition is_str (x : json) : bool :=
  match x with JStr _ => true | _ => false end.

Definition is_dict (x : json) : bool :=
  match x with JDict _ => true | _ => false end.

(** The deltas of a scan result. *)
Definition deltas_of (scan_results : json) : list json :=
  match item k_deltas scan_results with
  | JList ds => ds
  | _ => []
  end.

Section Orders.
Variable py_lt : json -> json -> option bool.

(** [a] has a smaller score, resp. smaller factors, than [b]. *)
Definition lt_score (a b : json) : bool :=
  ltb_of py_lt (item k_score a) (item k_score b).
Definition lt_factors (a b : json) : bool :=
  ltb_of py_lt (item k_factors a) (item k_factors b).
Definition gt_score : json -> json -> bool := gtb_of lt_score.

(** [a] goes strictly before [b]: a larger score, or tied scores and
    smaller factors. *)
Definition before_by_score_factors : json -> json -> bool :=
  lex gt_score lt_factors.

(** What both calls to [sort] make of the deltas. *)
Definition sorted_deltas (ds : list json) : list json :=
  rev (isort_by lt_score (rev (isort_by lt_factors ds))).

(** The order of the specification's Ranker: score descending, then a
    canonical key of the factors ascending, then path ascending. *)
Variable canonical_key : json -> json.
Variable path_of : json -> json.

Definition lt_canonical (a b : json) : bool :=
  ltb_of py_lt (canonical_key (item k_factors a))
    (canonical_key (item k_factors b)).
Definition lt_path (a b : json) : bool :=
  ltb_of py_lt (path_of a) (path_of b).

Definition before_by_triple : json -> json -> bool :=
  lex gt_score (lex lt_canonical lt_path).

(** Any two distinct elements are strictly ordered. *)
Definition strictly_ordered (l : list json) : Prop :=
  StronglySorted (fun a b => a <> b -> before_by_triple a b = true) l.

(** One sort with the combined comparator, applied once. *)
Definition single_sort (ds : list json) : list json :=
  isort_by before_by_triple ds.
End Orders.

(** What [streamline_errors] makes of one error string. *)
Definition streamlined (error : ustr) : ustr :=
  match cleaned_error error with
  | None => error
  | Some c => c
  end.

(* ------------------------------------------------------------------ *)
(** ** Example documents *)

Definition delta (score : Z) (factors : list String.string)
    (path : String.string) : json :=
  JDict [ (u "status", JStr (u "modified"));
          (k_factors, JList (List.map (fun f => JStr (u f)) factors));
          (k_score, JInt score);
          (u "new", JDict [(u "path", JStr (u path))]);
          (u "old", JDict [(u "path", JStr (u path))]) ].

Definition scan_entries (errors : json) (deltas : list json) : dict :=
  [ (k_version, JStr (u "1.0.0"));
    (k_options, JDict [(u "--new", JStr (u "new.json"));
                       (u "--old", JStr (u "old.json"))]);
    (k_errors, errors);
    (u "deltas_count", JInt (Z.of_nat (List.length deltas)));
    (k_deltas, JList deltas) ].

Definition scan (errors : json) (deltas : list json) : json :=
  JDict (scan_entries errors deltas).

Definition traceback : json :=
  JList [JStr (u "Traceback:" ++ [LF] ++ u " in scan" ++ [LF]
                ++ u "IOError")].

(** The path of the new file of a delta. *)
Definition new_path (d : json) : json := item (u "path") (item (u "new") d).

(** Three deltas out of order. *)
Definition scan_mixed : json :=
  scan traceback
    [ delta 20 ["license change"%string] "b.c";
      delta 30 ["license change"%string; "copyright change"%string] "a.c";
      delta 20 ["copyright change"%string] "c.c" ].

(** Two deltas tied on score and factors, the larger path first. *)
Definition scan_tied : json :=
  scan (JList []) [ delta 0 [] "b.c"; delta 0 [] "a.c" ].

(** An error that is not a string. *)
Definition scan_bad_error : json := scan (JList [JInt 1]) [].

(** Two deltas whose factors are mappings, as in the data model of the
    specification. *)
Definition scan_mappings : json :=
  scan (JList [])
    [ JDict [(k_factors, JDict [(u "size_delta", JInt 10)]);
             (k_score, JInt 10)];
      JDict [(k_factors, JDict [(u "size_delta", JInt 0)]);
             (k_score, JInt 0)] ].

(** An instance of the runtime for the examples: a serialiser in compact
    form (escaping quotes, backslashes, line feeds, carriage returns and
    tabs), and the decoder that knows the example documents by their
    serialisation. *)
Definition escape (c : N) : ustr :=
  if N.eqb c 34 || N.eqb c 92 then [92%N; c]
  else if N.eqb c 10 then [92%N; 110%N]
  else if N.eqb c 13 then [92%N; 114%N]
  else if N.eqb c 9 then [92%N; 116%N]
  else [c].

Definition quote (s : ustr) : ustr := [34%N] ++ flat_map escape s ++ [34%N].

Fixpoint join (sep : ustr) (l : list ustr) : ustr :=
  match l with
  | [] => []
  | [a] => a
  | a :: l' => a ++ sep ++ join sep l'
  end.

Fixpoint dumps (sort_keys : bool) (x : json) {struct x} : ustr :=
  match x with
  | JNull => u "null"
  | JBool true => u "true"
  | JBool false => u "false"
  | JInt z => u (NilZero.string_of_int (Z.to_int z))
  | JStr s => quote s
  | JList l =>
      u "[" ++
      join (u ",")
        ((fix items (l : list json) : list ustr :=
            match l with
            | [] => []
            | a :: l' => dumps sort_keys a :: items l'
            end) l)
      ++ u "]"
  | JDict d =>
      let entries :=
        (fix items (d : list (ustr * json)) : list (ustr * ustr) :=
           match d with
           | [] => []
           | (k, v) :: d' => (k, dumps sort_keys v) :: items d'
           end) d in
      let entries :=
        if sort_keys
        then isort_by (fun p q => ustr_ltb (fst p) (fst q)) entries
        else entries in
      u "{" ++
      join (u ",")
        (List.map (fun kv => quote (fst kv) ++ u ": " ++ snd kv) entries)
      ++ u "}"
  end.

Definition example_documents : list json :=
  [scan_mixed; scan_tied; scan_bad_error; scan_mappings].

Definition loads_example (s : ustr) : option json :=
  find (fun x => ustr_eqb (dumps false x) s) example_documents.

Definition example_files : String.string -> option ustr :=
  fun location =>
    if String.eqb location "mixed.json" then Some (dumps false scan_mixed)
    else if String.eqb location "tied.json" then Some (dumps false scan_tied)
    else None.

(** The scan results that [load_json_result_from_string] is written for:
    a mapping whose ['deltacode_errors'] is a list of strings and whose
    ['deltas'] is a list of entries with ['factors'] and ['score'], the
    factors being comparable with each other, and the scores too. *)
Definition well_formed (py_lt : json -> json -> option bool)
    (scan_results : json) : bool :=
  match scan_results with
  | JDict d =>
      match dict_get k_errors d, dict_get k_deltas d with
      | Some (JList es), Some (JList ds) =>
          forallb is_str es &&
          forallb (has_item k_factors) ds &&
          forallb (has_item k_score) ds &&
          comparable py_lt (List.map (item k_factors) ds) &&
          comparable py_lt (List.map (item k_score) ds)
      | _, _ => false
      end
  | _ => false
  end.

(** Well-formed scan results on whose scores, and on whose factors, [<]
    is a strict weak order. *)
Definition well_ordered (py_lt : json -> json -> option bool)
    (scan_results : json) : bool :=
  well_formed py_lt scan_results &&
  weakly_ordered py_lt (List.map (item k_score) (deltas_of scan_results)) &&
  weakly_ordered py_lt (List.map (item k_factors) (deltas_of scan_results)).

(** The scan results as the specification describes them: a ['deltas']
    list whose entries have a ['score'] and a mapping as ['factors'], and
    a ['deltacode_errors'] list. *)
Definition described (scan_results : json) : bool :=
  match scan_results with
  | JDict d =>
      match dict_get k_errors d, dict_get k_deltas d with
      | Some (JList _), Some (JList ds) =>
          forallb (fun x => is_dict (item k_factors x)) ds &&
          forallb (has_item k_factors) ds &&
          forallb (has_item k_score) ds
      | _, _ => false
      end
  | _ => false
  end.

(** The entries that [streamline_headers] does not touch. *)
Definition other_entry (kv : ustr * json) : bool :=
  negb (ustr_eqb k_version (fst kv)) &&
  negb (ustr_eqb k_options (fst kv)) &&
  negb (ustr_eqb k_errors (fst kv)).

(* ------------------------------------------------------------------ *)
(** ** The diff engine of the specification

    The engine that compares two inventories is not part of the harness;
    sections 3 and 4 of the specification describe it, and this module
    follows them. *)

Module DiffEngine.

(** Modelled from the spec: the data model of section 3 (the engine
    itself is missing from the sources). *)
Record FileRecord : Type := {
  path : list String.string;
  size : N;
  fingerprint : String.string;
  attributes : list (String.string * String.string)
}.

Definition Snapshot := list FileRecord.

Inductive Kind : Type := Added | Removed | Modified | Moved | Unmodified.

Record Delta : Type := {
  kind : Kind;
  old : option FileRecord;
  new : option FileRecord;
  factors : list (String.string * N);
  score : N
}.

Definition Report := list Delta.

Inductive EngineError : Type := DuplicatePathError.

(** Modelled from the spec: the configuration of section 6, a weight for
    each factor name and the attribute names to track. *)
Record Config : Type := {
  weight : String.string -> N;
  tracked : list String.string
}.

Definition path_eqb (p q : list String.string) : bool :=
  if list_eq_dec String.string_dec p q then true else false.

(** Lexicographic order on paths, segment by segment. *)
Fixpoint path_ltb (p q : list String.string) : bool :=
  match p, q with
  | [], [] => false
  | [], _ :: _ => true
  | _ :: _, [] => false
  | a :: p', b :: q' =>
      match String.compare a b with
      | Lt => true
      | Eq => path_ltb p' q'
      | Gt => false
      end
  end.

(** Modelled from the spec: the edit distance between two paths, over
    their segments. *)
Fixpoint edit_distance (p q : list String.string) : nat :=
  match p with
  | [] => List.length q
  | a :: p' =>
      (fix inner (q : list String.string) : nat :=
         match q with
         | [] => List.length p
         | b :: q' =>
             if String.eqb a b then edit_distance p' q'
             else S (Nat.min (edit_distance p' q)
                       (Nat.min (inner q') (edit_distance p' q')))
         end) q
  end.

(** Modelled from the spec: section 4.1, the index refuses a snapshot
    with two records of the same path. *)
Fixpoint duplicate_path (s : Snapshot) : bool :=
  match s with
  | [] => false
  | r :: s' =>
      existsb (fun r' => path_eqb (path r) (path r')) s' ||
      duplicate_path s'
  end.

(** Every way of taking one element out of a list: the element and the
    others, in their order. *)
Fixpoint picks {A} (l : list A) : list (A * list A) :=
  match l with
  | [] => []
  | a :: l' =>
      (a, l') :: List.map (fun p => (fst p, a :: snd p)) (picks l')
  end.

Definition same_identity (o n : FileRecord) : bool :=
  String.eqb (fingerprint o) (fingerprint n) && path_eqb (path o) (path n).

Definition same_content (o n : FileRecord) : bool :=
  String.eqb (fingerprint o) (fingerprint n).

Definition same_path (o n : FileRecord) : bool :=
  path_eqb (path o) (path n).

(** The old records in their order, each paired with the first new
    record left that is the [same]; with the pairs come the records
    left on both sides. *)
Fixpoint pair_same (same : FileRecord -> FileRecord -> bool)
    (olds news : list FileRecord)
  : list (FileRecord * FileRecord) * list FileRecord * list FileRecord :=
  match olds with
  | [] => ([], [], news)
  | o :: olds' =>
      match find (fun p => same o (fst p)) (picks news) with
      | Some (n, news') =>
          let '(ps, ro, rn) := pair_same same olds' news' in
          ((o, n) :: ps, ro, rn)
      | None =>
          let '(ps, ro, rn) := pair_same same olds' news in
          (ps, o :: ro, rn)
      end
  end.

(** A candidate move: an old and a new record of the same content, with
    the records left on both sides. *)
Abbreviation Candidate :=
  (FileRecord * FileRecord * list FileRecord * list FileRecord)%type.

Definition candidates (olds news : list FileRecord) : list Candidate :=
  flat_map (fun po =>
    List.map (fun pn => (fst po, fst pn, snd po, snd pn))
      (filter (fun pn => same_content (fst po) (fst pn)) (picks news)))
    (picks olds).

(** [c] is a better move than [c']: a smaller distance, then the
    smaller old path, then the smaller new path. *)
Definition better (c c' : Candidate) : bool :=
  let '(o, n, _, _) := c in
  let '(o', n', _, _) := c' in
  let d := edit_distance (path o) (path n) in
  let d' := edit_distance (path o') (path n') in
  Nat.ltb d d' ||
  (Nat.eqb d d' &&
   (path_ltb (path o) (path o') ||
    (path_eqb (path o) (path o') && path_ltb (path n) (path n')))).

Fixpoint best (cs : list Candidate) : option Candidate :=
  match cs with
  | [] => None
  | c :: cs' =>
      match best cs' with
      | Some c' => if better c' c then Some c' else Some c
      | None => Some c
      end
  end.

(** The best move is taken, and so on among the records left, as long
    as there is a move. *)
Fixpoint pair_moved (fuel : nat) (olds news : list FileRecord)
  : list (FileRecord * FileRecord) * list FileRecord * list FileRecord :=
  match fuel with
  | O => ([], olds, news)
  | S fuel' =>
      match best (candidates olds news) with
      | None => ([], olds, news)
      | Some (o, n, olds', news') =>
          let '(ps, ro, rn) := pair_moved fuel' olds' news' in
          ((o, n) :: ps, ro, rn)
      end
  end.

Abbreviation Pair := (Kind * option FileRecord * option FileRecord)%type.

Definition pair_old (p : Pair) : option FileRecord := snd (fst p).
Definition pair_new (p : Pair) : option FileRecord := snd p.

Definition both (k : Kind) (p : FileRecord * FileRecord) : Pair :=
  (k, Some (fst p), Some (snd p)).

(** Modelled from the spec: the Matcher of section 4.2, its four steps
    in their order. *)
Definition matcher (olds news : Snapshot) : list Pair :=
  let '(unmodified, o1, n1) := pair_same same_identity olds news in
  let '(moved, o2, n2) := pair_moved (List.length o1) o1 n1 in
  let '(modified, o3, n3) := pair_same same_path o2 n2 in
  List.map (both Unmodified) unmodified ++
  List.map (both Moved) moved ++
  List.map (both Modified) modified ++
  List.map (fun o => (Removed, Some o, None)) o3 ++
  List.map (fun n => (Added, None, Some n)) n3.

Definition lookup (name : String.string)
    (l : list (String.string * String.string)) : option String.string :=
  option_map snd (find (fun kv => String.eqb name (fst kv)) l).

Definition option_string_eqb (a b : option String.string) : bool :=
  match a, b with
  | Some x, Some y => String.eqb x y
  | None, None => true
  | _, _ => false
  end.

Definition size_delta (o n : option FileRecord) : N :=
  match o, n with
  | Some o, Some n => (N.max (size o) (size n) - N.min (size o) (size n))%N
  | Some r, None | None, Some r => size r
  | None, None => 0%N
  end.

Definition path_delta (o n : option FileRecord) : N :=
  match o, n with
  | Some o, Some n => N.of_nat (edit_distance (path o) (path n))
  | _, _ => 0%N
  end.

(** The values differ, or one side is missing. *)
Definition changed (name : String.string) (o n : option FileRecord) : N :=
  match o, n with
  | Some o, Some n =>
      if option_string_eqb (lookup name (attributes o))
           (lookup name (attributes n))
      then 0%N else 1%N
  | _, _ => 1%N
  end.

Definition weighted_sum (c : Config) (fs : list (String.string * N)) : N :=
  fold_right (fun f acc => weight c (fst f) * snd f + acc)%N 0%N fs.

(** Modelled from the spec: the Delta Classifier of section 4.3 and the
    score of section 4.4. *)
Definition classify (c : Config) (p : Pair) : Delta :=
  let '(k, o, n) := p in
  let fs :=
    ("size_delta"%string, size_delta o n) ::
    ("path_delta"%string, path_delta o n) ::
    List.map (fun name => (String.append name "_changed", changed name o n))
      (tracked c) in
  {| kind := k; old := o; new := n; factors := fs;
     score := weighted_sum c fs |}.

Definition delta_path (d : Delta) : list String.string :=
  match new d, old d with
  | Some r, _ => path r
  | None, Some r => path r
  | None, None => []
  end.

(** The canonical key of the factors: their values in the order of
    their names. *)
Definition canonical (d : Delta) : list N := List.map snd (factors d).

Fixpoint values_ltb (a b : list N) : bool :=
  match a, b with
  | [], [] => false
  | [], _ :: _ => true
  | _ :: _, [] => false
  | x :: a', y :: b' => N.ltb x y || (N.eqb x y && values_ltb a' b')
  end.

Fixpoint values_eqb (a b : list N) : bool :=
  match a, b with
  | [], [] => true
  | x :: a', y :: b' => N.eqb x y && values_eqb a' b'
  | _, _ => false
  end.

(** Modelled from the spec: the order of the Ranker of section 4.4,
    score descending, then the canonical key of the factors ascending,
    then the path ascending. *)
Definition ranks_before (a b : Delta) : bool :=
  N.ltb (score b) (score a) ||
  (N.eqb (score a) (score b) &&
   (values_ltb (canonical a) (canonical b) ||
    (values_eqb (canonical a) (canonical b) &&
     path_ltb (delta_path a) (delta_path b)))).

Definition rank (ds : list Delta) : Report := isort_by ranks_before ds.

(** Modelled from the spec: the engine, from two snapshots to the
    report. *)
Definition diff (c : Config) (olds news : Snapshot)
  : EngineError + Report :=
  if duplicate_path olds || duplicate_path news
  then inl DuplicatePathError
  else inr (rank (List.map (classify c) (matcher olds news))).

Definition side (r : option FileRecord) : list FileRecord :=
  match r with
  | Some r => [r]
  | None => []
  end.

(** The old and the new records that a report accounts for, one for
    each delta that holds one. *)
Definition olds_of (ds : list Delta) : list FileRecord :=
  flat_map (fun d => side (old d)) ds.
Definition news_of (ds : list Delta) : list FileRecord :=
  flat_map (fun d => side (new d)) ds.

Definition default_config : Config :=
  {| weight := fun name =>
       if String.eqb name "size_delta" then 1%N
       else if String.eqb name "path_delta" then 2%N
       else 10%N;
     tracked := ["license"%string; "copyright"%string] |}.

Definition file (p : list String.string) (s : N) (fp : String.string)
  : FileRecord :=
  {| path := p; size := s; fingerprint := fp; attributes := [] |}.

End DiffEngine.

(* ------------------------------------------------------------------ *)
(** ** Running a scan

    [options] is a list of strings.  [on_windows] and [on_linux] come
    from [commoncode.system]; on Linux the name of the command is a byte
    string.  [execute2] (the subprocess), the Click runner,
    [scancode_root_dir] and [os.path.join] are those of the
    environment. *)

Definition WINDOWS_CI_TIMEOUT : ustr := u "222.2".
Definition o_timeout : ustr := u "--timeout".
Definition o_test_mode : ustr := u "--test-mode".

(** [x in options] *)
Definition contains (x : ustr) (options : list ustr) : bool :=
  existsb (ustr_eqb x) options.

(** [options += ['--timeout', timeout]] extends the list of the caller;
    the list returned is that list. *)
Definition add_windows_extra_timeout (on_windows : bool)
    (options : list ustr) (timeout : ustr) : list ustr :=
  if on_windows && negb (contains o_timeout options)
  then options ++ [o_timeout; timeout]
  else options.

(** The truth value of a decoded value. *)
Definition truthy (x : json) : bool :=
  match x with
  | JNull => false
  | JBool b => b
  | JInt z => negb (Z.eqb z 0)
  | JStr s => negb (Nat.eqb (List.length s) 0)
  | JList l => negb (Nat.eqb (List.length l) 0)
  | JDict d => negb (Nat.eqb (List.length d) 0)
  end.

(** [scancode_options.get('--timeout') == timeout], then
    [del scancode_options['--timeout']]; only a mapping has [get]. *)
Definition remove_windows_extra_timeout (on_windows : bool)
    (scancode_options : json) (timeout : ustr) : json * option exn :=
  if on_windows then
    if truthy scancode_options then
      match scancode_options with
      | JDict d =>
          let value :=
            match dict_get o_timeout d with
            | Some v => v
            | None => JNull
            end in
          if py_eq value (JStr timeout)
          then (JDict (dict_pop o_timeout d), None)
          else (scancode_options, None)
      | _ => (scancode_options, Some AttributeError)
      end
    else (scancode_options, None)
  else (scancode_options, None).

(** [' '.join(options)]; on strings the first attempt succeeds. *)
Definition get_opts (options : list ustr) : ustr := join (u " ") options.

(** What a runner gives back: its value, or a failed assertion with its
    message. *)
Inductive run (A : Type) : Type :=
| Returned (a : A)
| AssertionFailed (message : ustr)
| Raised (e : exn).
Arguments Returned {A} a.
Arguments AssertionFailed {A} message.
Arguments Raised {A} e.

Section Runners.
Variable on_windows : bool.
(** Working directories and environments. *)
Variable Where : Type.
Variable on_linux : bool.
Variable scancode_root_dir : ustr.
(** [os.path.join(root, name)], [name] being a byte string when the flag
    is set; [None] where joining text and bytes raises [TypeError], as
    on Python 3. *)
Variable path_join : ustr -> ustr -> bool -> option ustr.
(** [commoncode.command.execute2]: return code, output and errors. *)
Variable execute2 : ustr -> list ustr -> Where -> Where -> Z * ustr * ustr.
(** [CliRunner().invoke(cli.cli, options, catch_exceptions=False, env=env)]
    with or without the mocked terminal: exit code and output. *)
Variable invoke : bool -> list ustr -> Where -> Z * ustr.

(** The options of the caller after the call, and the outcome. *)
Definition run_scan_plain (options : list ustr) (cwd : Where)
    (test_mode : bool) (expected_rc : Z) (env : Where)
  : list ustr * run (Z * ustr * ustr) :=
  let options := add_windows_extra_timeout on_windows options
                   WINDOWS_CI_TIMEOUT in
  let options :=
    if test_mode && negb (contains o_test_mode options)
    then options ++ [o_test_mode]
    else options in
  match path_join scancode_root_dir (u "deltacode") on_linux with
  | None => (options, Raised TypeError)
  | Some scan_cmd =>
      let '(rc, stdout, stderr) := execute2 scan_cmd options cwd env in
      if negb (Z.eqb rc expected_rc) then
        let opts := get_opts options in
        let error :=
          [LF] ++ u "Failure to run: deltacode " ++ opts ++ [LF] ++
          u "stdout:" ++ [LF] ++ stdout ++ [LF] ++ [LF] ++
          u "stderr:" ++ [LF] ++ stderr ++ [LF] in
        (options, AssertionFailed error)
      else (options, Returned (rc, stdout, stderr))
  end.

Definition run_scan_click (options : list ustr) (monkeypatch : bool)
    (test_mode : bool) (expected_rc : Z) (env : Where)
  : list ustr * run (Z * ustr) :=
  let options := add_windows_extra_timeout on_windows options
                   WINDOWS_CI_TIMEOUT in
  let result := invoke monkeypatch options env in
  let output := snd result in
  if negb (Z.eqb (fst result) expected_rc) then
    let opts := get_opts options in
    let error :=
      [LF] ++ u "Failure to run: deltacode " ++ opts ++ [LF] ++
      u "output:" ++ [LF] ++ output ++ [LF] in
    (options, AssertionFailed error)
  else (options, Returned result).
End Runners.

(** The options as [run_scan_plain] leaves them and runs the command on
    them: those of the caller, then ['--timeout'] and its value on
    Windows if there was no ['--timeout'], then ['--test-mode'] in test
    mode if there was no ['--test-mode']. *)
Definition scan_options (on_windows test_mode : bool)
    (options : list ustr) : list ustr :=
  options ++
  (if on_windows && negb (contains o_timeout options)
   then [o_timeout; WINDOWS_CI_TIMEOUT] else []) ++
  (if test_mode && negb (contains o_test_mode options)
   then [o_test_mode] else []).

(** The scan results that [load_json_result_from_string] returns for the
    mapping [d] with the error strings [ss] and the deltas [ds]. *)
Definition loaded (py_lt : json -> json -> option bool) (d : dict)
    (ss : list ustr) (ds : list json) : dict :=
  dict_set k_deltas (JList (sorted_deltas py_lt ds))
    (dict_set k_errors (JList (List.map JStr (List.map streamlined ss)))
       (dict_pop k_options (dict_pop k_version d))).

(** The entries that [load_json_result_from_string] does not touch. *)
Definition kept_entry (kv : ustr * json) : bool :=
  other_entry kv && negb (ustr_eqb k_deltas (fst kv)).

(** The first entries of [errors] that are strings. *)
Fixpoint leading_strings (errors : list json) : list json :=
  match errors with
  | JStr s :: rest => JStr s :: leading_strings rest
  | _ => []
  end.

Definition streamlined_entry (x : json) : json :=
  match x with
  | JStr s => JStr (streamlined s)
  | _ => x
  end.

(** The scan results of [scan_mixed] once loaded, and a decoder that
    knows them too. *)
Definition scan_mixed_loaded : json :=
  match load_scan_results py3_lt scan_mixed with
  | Ok r => r
  | Raise _ => JNull
  end.

Definition loads_regen (s : ustr) : option json :=
  find (fun x => ustr_eqb (dumps false x) s)
    [scan_mixed; scan_tied; scan_mixed_loaded].

(** One delta whose factors are a mapping. *)
Definition single_mapping_delta : json :=
  JDict [(k_factors, JDict [(u "size_delta", JInt 10)]); (k_score, JNull)].

(* ------------------------------------------------------------------ *)
(** ** The loader on any [list.sort]

    What a run returns could depend on how the runtime sorts.  Here the
    loader takes [list.sort(key=..., reverse=...)] as [sort], a function
    like [list_sort py_lt]; with [list_sort py_lt] for [sort] these are
    the definitions above. *)

Section AnySort.
Variable py_lt : json -> json -> option bool.
Variable sort :
  (json -> result json) -> bool -> list json -> result (list json).
Variable json_loads : ustr -> option json.

Definition sort_deltas_with (k : ustr) (reverse : bool)
    (scan_results : json) : result json :=
  deltas <- getitem k_deltas scan_results ;;
  match deltas, scan_results with
  | JList ds, JDict d =>
      ds' <- sort (getitem k) reverse ds ;;
      Ok (JDict (dict_set k_deltas (JList ds') d))
  | _, _ => Raise AttributeError
  end.

Definition load_scan_results_with (scan_results : json) : result json :=
  match streamline_headers scan_results with
  | (_, Some e) => Raise e
  | (scan_results, None) =>
      scan_results <- sort_deltas_with k_factors false scan_results ;;
      sort_deltas_with k_score true scan_results
  end.

Definition load_json_result_from_string_with (string : ustr)
    (remove_file_date : bool) : result json :=
  match json_loads string with
  | None => Raise ValueError
  | Some scan_results => load_scan_results_with scan_results
  end.

(** The order that [l.sort(key=lambda x: x[k], reverse=...)] sorts by. *)
Definition sort_order (k : ustr) (reverse : bool) (a b : json) : bool :=
  if reverse
  then ltb_of py_lt (item k b) (item k a)
  else ltb_of py_lt (item k a) (item k b).

(** What [list.sort] promises where [<] orders the keys: the list comes
    back reordered, no item before one that the order puts first, and
    the tied items in the order they had. *)
Definition sort_contract : Prop :=
  forall (k : ustr) (reverse : bool) (l : list json),
    forallb (has_item k) l = true ->
    weakly_ordered py_lt (List.map (item k) l) = true ->
    exists l',
      sort (getitem k) reverse l = Ok l' /\
      Permutation l' l /\
      sorted_by (sort_order k reverse) l' /\
      forall a, In a l ->
        filter (tied (sort_order k reverse) a) l' =
        filter (tied (sort_order k reverse) a) l.
End AnySort.

(** Another [list.sort]: with [reverse] it sorts by the converse
    comparison instead of reversing the list before and after. *)
Definition list_sort_converse (py_lt : json -> json -> option bool)
    (key : json -> result json) (reverse : bool) (l : list json)
  : result (list json) :=
  keys <- mapM key l ;;
  let decorated := combine keys l in
  sorted <-
    (if reverse
     then stable_sort (fun p q => lt_keys py_lt q p) decorated
     else stable_sort (lt_keys py_lt) decorated) ;;
  Ok (List.map snd sorted).

(** Python 2 writes text to a binary file; Python 3 raises. *)
Definition write_binary_py2 (text : ustr) : option ustr := Some text.
Definition write_binary_py3 (text : ustr) : option ustr := None.

(** [os.path.join] on Python 2, with [/] between the parts, and on
    Python 3, where text and bytes do not join. *)
Definition path_join_py2 (root name : ustr) (bytes : bool) : option ustr :=
  Some (root ++ u "/" ++ name).
Definition path_join_py3 (root name : ustr) (bytes : bool) : option ustr :=
  if bytes then None else Some (root ++ u "/" ++ name).

(* ================================================================== *)
(** * Properties *)

Lemma ustr_eqb_eq (a b : ustr) : ustr_eqb a b = true <-> a = b.
Proof.
  revert b; induction a as [|x a IH]; intros [|y b]; simpl;
    try (split; [discriminate | discriminate]); try tauto.
  rewrite andb_true_iff, N.eqb_eq, IH.
  split; [intros [-> ->]; reflexivity | intros H; inversion H; auto].
Qed.

Lemma ustr_eqb_refl (a : ustr) : ustr_eqb a a = true.
Proof. apply ustr_eqb_eq; reflexivity. Qed.

Lemma ustr_eqb_neq (a b : ustr) : ustr_eqb a b = false <-> a <> b.
Proof.
  rewrite <- ustr_eqb_eq. destruct (ustr_eqb a b); split; congruence.
Qed.

Lemma ustr_eqb_sym (a b : ustr) : ustr_eqb a b = ustr_eqb b a.
Proof.
  destruct (ustr_eqb a b) eqn:E.
  - apply ustr_eqb_eq in E; subst; symmetry; apply ustr_eqb_refl.
  - symmetry; apply ustr_eqb_neq; apply ustr_eqb_neq in E; congruence.
Qed.

(* ------------------------------------------------------------------ *)
(** ** Lines *)

Lemma ustr_len_ind (P : ustr -> Prop) :
  (forall s, (forall t, List.length t < List.length s -> P t) -> P s) ->
  forall s, P s.
Proof.
  intros H s.
  assert (G : forall n t, List.length t < n -> P t).
  { induction n as [|n IH]; intros t Ht; [lia|].
    apply H; intros t' Ht'; apply IH; lia. }
  apply (G (S (List.length s))); lia.
Qed.

Lemma splitlines_concat (s : ustr) : List.concat (splitlines s) = s.
Proof.
  induction s as [s IH] using ustr_len_ind.
  destruct s as [|c s']; simpl; [reflexivity|].
  destruct (is_linebreak c).
  - destruct s' as [|c2 s'']; [reflexivity|].
    destruct (N.eqb c CR && N.eqb c2 LF); simpl.
    + rewrite (IH s'') by (simpl; lia); reflexivity.
    + f_equal. apply (IH (c2 :: s'')); simpl; lia.
  - assert (E := IH s' ltac:(simpl; lia)).
    destruct (splitlines s') as [|l ls]; simpl in *; subst; reflexivity.
Qed.

Lemma splitlines_app_length (a b : ustr) :
  List.length (splitlines (a ++ b)) <=
  List.length (splitlines a) + List.length (splitlines b).
Proof.
  revert b; induction a as [a IH] using ustr_len_ind; intros b.
  destruct a as [|c a']; [simpl; lia|].
  change ((c :: a') ++ b) with (c :: (a' ++ b)).
  cbn [splitlines].
  destruct (is_linebreak c) eqn:Ec.
  - destruct a' as [|c2 a''].
    + cbn [app]. destruct b as [|c2 b'']; [simpl; lia|].
      destruct (N.eqb c CR && N.eqb c2 LF) eqn:E; [|simpl; lia].
      apply andb_true_iff in E; destruct E as [_ E].
      apply N.eqb_eq in E; subst c2.
      destruct b''; simpl; lia.
    + change ((c2 :: a'') ++ b) with (c2 :: (a'' ++ b)).
      cbv beta iota.
      destruct (N.eqb c CR && N.eqb c2 LF).
      * specialize (IH a'' ltac:(simpl; lia) b). cbn [List.length]. lia.
      * specialize (IH (c2 :: a'') ltac:(simpl; lia) b).
        change ((c2 :: a'') ++ b) with (c2 :: (a'' ++ b)) in IH.
        cbn [List.length]. lia.
  - specialize (IH a' ltac:(simpl; lia) b).
    destruct (splitlines (a' ++ b)), (splitlines a'); simpl in *; lia.
Qed.

Lemma splitlines_line (s x : ustr) :
  In x (splitlines s) -> List.length (splitlines x) = 1.
Proof.
  revert x; induction s as [s IH] using ustr_len_ind; intros x.
  destruct s as [|c s']; [intros []|].
  cbn [splitlines].
  destruct (is_linebreak c) eqn:Ec.
  - destruct s' as [|c2 s''].
    + intros [<-|[]]. simpl. rewrite Ec. reflexivity.
    + destruct (N.eqb c CR && N.eqb c2 LF) eqn:E.
      * intros [<-|Hx].
        -- cbn [splitlines]. rewrite Ec, E. reflexivity.
        -- apply (IH s''); [simpl; lia | exact Hx].
      * intros [<-|Hx].
        -- simpl. rewrite Ec. reflexivity.
        -- apply (IH (c2 :: s'')); [simpl; lia | exact Hx].
  - destruct (splitlines s') as [|l ls] eqn:E.
    + intros [<-|[]]. simpl. rewrite Ec. reflexivity.
    + assert (Hl : List.length (splitlines l) = 1).
      { apply (IH s'); [simpl; lia | rewrite E; left; reflexivity]. }
      intros [<-|Hx].
      * cbn [splitlines]. rewrite Ec.
        destruct (splitlines l) as [|l0 [|? ?]]; simpl in *; lia.
      * apply (IH s'); [simpl; lia | rewrite E; right; exact Hx].
Qed.

Lemma hd_In_lines (ls : list ustr) : ls <> [] -> In (hd [] ls) ls.
Proof. destruct ls; [congruence | left; reflexivity]. Qed.

Lemma last_In_lines (ls : list ustr) : ls <> [] -> In (last ls []) ls.
Proof.
  induction ls as [|a ls IH]; [congruence|]; intros _.
  destruct ls as [|b ls]; [left; reflexivity|].
  right. apply IH. discriminate.
Qed.

Lemma cleaned_error_lines (e c : ustr) :
  cleaned_error e = Some c ->
  2 <= List.length (splitlines e) /\
  c = hd [] (splitlines e) ++ last (splitlines e) [].
Proof.
  unfold cleaned_error.
  destruct (Nat.leb (List.length (splitlines e)) 1) eqn:E; [discriminate|].
  apply Nat.leb_gt in E. intros H; inversion H; split; [lia | reflexivity].
Qed.

Lemma streamlined_idempotent (e : ustr) :
  streamlined (streamlined e) = streamlined e.
Proof.
  unfold streamlined at 2 3.
  destruct (cleaned_error e) as [c|] eqn:E.
  - apply cleaned_error_lines in E; destruct E as [Hlen ->].
    set (ls := splitlines e) in *.
    assert (Hne : ls <> []) by (destruct ls; [simpl in Hlen; lia | discriminate]).
    assert (H1 := splitlines_line e _ (hd_In_lines Hne)).
    assert (H2 := splitlines_line e _ (last_In_lines Hne)).
    assert (H3 := splitlines_app_length (hd [] ls) (last ls [])).
    assert (H4 := splitlines_concat (hd [] ls ++ last ls [])).
    unfold streamlined, cleaned_error.
    destruct (splitlines (hd [] ls ++ last ls [])) as [|a [|b [|? ?]]];
      simpl in *; try reflexivity; try lia.
    rewrite app_nil_r in H4. exact H4.
  - unfold streamlined. rewrite E. reflexivity.
Qed.

(* ------------------------------------------------------------------ *)
(** ** [streamline_errors] *)

Lemma list_set_middle {A} (pre : list A) (a v : A) (post : list A) :
  list_set (List.length pre) v (pre ++ a :: post) = pre ++ v :: post.
Proof. induction pre as [|x pre IH]; simpl; [|rewrite IH]; reflexivity. Qed.

Lemma streamline_errors_loop_strings (copy : list ustr) (pre : list json) :
  streamline_errors_loop (List.length pre) (List.map JStr copy)
    (pre ++ List.map JStr copy) =
  (pre ++ List.map JStr (List.map streamlined copy), None).
Proof.
  revert pre; induction copy as [|e rest IH]; intros pre; [reflexivity|].
  cbn [List.map streamline_errors_loop]. unfold streamlined at 1.
  assert (Hlen : forall x : json,
            S (List.length pre) = List.length (pre ++ [x])).
  { intros x. rewrite length_app; simpl; lia. }
  assert (Happ : forall (x : json) post,
            pre ++ x :: post = (pre ++ [x]) ++ post).
  { intros x post. rewrite <- app_assoc; reflexivity. }
  destruct (cleaned_error e) as [c|].
  - rewrite list_set_middle.
    rewrite (Happ (JStr c) (List.map JStr rest)),
      (Happ (JStr c) (List.map JStr (List.map streamlined rest))),
      (Hlen (JStr c)).
    apply IH.
  - rewrite (Happ (JStr e) (List.map JStr rest)),
      (Happ (JStr e) (List.map JStr (List.map streamlined rest))),
      (Hlen (JStr e)).
    apply IH.
Qed.

Lemma streamline_errors_strings (es : list ustr) :
  streamline_errors (JList (List.map JStr es)) =
  (JList (List.map JStr (List.map streamlined es)), None).
Proof.
  unfold streamline_errors.
  change (streamline_errors_loop 0 (List.map JStr es) (List.map JStr es))
    with (streamline_errors_loop (List.length (@nil json))
            (List.map JStr es) ([] ++ List.map JStr es)).
  rewrite streamline_errors_loop_strings. reflexivity.
Qed.

(** C8: [streamline_errors] keeps the length of a list of error strings;
    a string of at most one line is left as it is, a string of two or
    more lines becomes its first line followed by its last line; and a
    second call changes nothing. *)
Theorem streamline_errors_spec (es : list ustr) :
  exists es',
    streamline_errors (JList (List.map JStr es)) =
      (JList (List.map JStr es'), None) /\
    List.length es' = List.length es /\
    (forall i e e',
        nth_error es i = Some e -> nth_error es' i = Some e' ->
        (List.length (splitlines e) <= 1 -> e' = e) /\
        (2 <= List.length (splitlines e) ->
         e' = hd [] (splitlines e) ++ last (splitlines e) [])) /\
    streamline_errors (JList (List.map JStr es')) =
      (JList (List.map JStr es'), None).
Proof.
  exists (List.map streamlined es).
  split; [apply streamline_errors_strings|].
  split; [apply length_map|].
  split.
  - intros i e e' He He'.
    rewrite nth_error_map, He in He'. inversion He'; subst e'.
    unfold streamlined, cleaned_error.
    destruct (Nat.leb (List.length (splitlines e)) 1) eqn:E.
    + apply Nat.leb_le in E. split; [reflexivity | lia].
    + apply Nat.leb_gt in E. split; [lia | reflexivity].
  - rewrite streamline_errors_strings. do 2 f_equal.
    rewrite !map_map. apply map_ext. intros e.
    rewrite streamlined_idempotent. reflexivity.
Qed.

(* ------------------------------------------------------------------ *)
(** ** Ordered dictionaries and [streamline_headers] *)

Lemma dict_get_pop_ne (k k' : ustr) (d : dict) :
  ustr_eqb k k' = false -> dict_get k (dict_pop k' d) = dict_get k d.
Proof.
  intros Hk. induction d as [|[k0 v] d IH]; [reflexivity|].
  unfold dict_pop in *. simpl.
  destruct (ustr_eqb k' k0) eqn:E; simpl.
  - apply ustr_eqb_eq in E; subst k0. rewrite Hk. exact IH.
  - rewrite IH. reflexivity.
Qed.

Lemma dict_get_pop_eq (k : ustr) (d : dict) :
  dict_get k (dict_pop k d) = None.
Proof.
  induction d as [|[k0 v] d IH]; [reflexivity|].
  unfold dict_pop in *. simpl.
  destruct (ustr_eqb k k0) eqn:E; simpl; [|rewrite E]; exact IH.
Qed.

Lemma dict_pop_filter (k : ustr) (f : ustr * json -> bool) (d : dict) :
  (forall v, f (k, v) = false) ->
  filter f (dict_pop k d) = filter f d.
Proof.
  intros Hf. induction d as [|[k0 v] d IH]; [reflexivity|].
  unfold dict_pop in *. simpl.
  destruct (ustr_eqb k k0) eqn:E; simpl.
  - apply ustr_eqb_eq in E; subst k0. rewrite Hf. exact IH.
  - rewrite IH. reflexivity.
Qed.

Lemma dict_keys_pop (k : ustr) (d : dict) :
  dict_keys (dict_pop k d) =
  filter (fun k' => negb (ustr_eqb k k')) (dict_keys d).
Proof.
  induction d as [|[k0 v] d IH]; [reflexivity|].
  unfold dict_pop, dict_keys in *. simpl.
  destruct (ustr_eqb k k0); simpl; rewrite IH; reflexivity.
Qed.

Lemma dict_keys_set (k : ustr) (v v0 : json) (d : dict) :
  dict_get k d = Some v0 -> dict_keys (dict_set k v d) = dict_keys d.
Proof.
  induction d as [|[k0 w] d IH]; simpl; [discriminate|].
  destruct (ustr_eqb k k0); [reflexivity|].
  intros H. unfold dict_keys in *. simpl. rewrite IH by exact H. reflexivity.
Qed.

Lemma dict_get_set_eq (k : ustr) (v : json) (d : dict) :
  dict_get k (dict_set k v d) = Some v.
Proof.
  induction d as [|[k0 w] d IH]; simpl.
  - rewrite ustr_eqb_refl. reflexivity.
  - destruct (ustr_eqb k k0) eqn:E; simpl; rewrite E; [reflexivity | exact IH].
Qed.

Lemma dict_get_set_ne (k k' : ustr) (v : json) (d : dict) :
  ustr_eqb k' k = false -> dict_get k' (dict_set k v d) = dict_get k' d.
Proof.
  intros Hk. induction d as [|[k0 w] d IH]; simpl.
  - rewrite Hk. reflexivity.
  - destruct (ustr_eqb k k0) eqn:E; simpl.
    + apply ustr_eqb_eq in E; subst k0. rewrite Hk. reflexivity.
    + rewrite IH. reflexivity.
Qed.

Lemma dict_set_filter (k : ustr) (v v0 : json) (f : ustr * json -> bool)
    (d : dict) :
  (forall w, f (k, w) = false) ->
  dict_get k d = Some v0 ->
  filter f (dict_set k v d) = filter f d.
Proof.
  intros Hf. induction d as [|[k0 w] d IH]; simpl; [discriminate|].
  destruct (ustr_eqb k k0) eqn:E; simpl.
  - apply ustr_eqb_eq in E; subst k0. rewrite !Hf. reflexivity.
  - intros H. rewrite IH by exact H. reflexivity.
Qed.

Lemma filter_filter_andb {A} (f g : A -> bool) (l : list A) :
  filter g (filter f l) = filter (fun a => f a && g a) l.
Proof.
  induction l as [|a l IH]; [reflexivity|]. simpl.
  destruct (f a); simpl; [destruct (g a)|]; rewrite IH; reflexivity.
Qed.

(** C9: on a mapping with a ['deltacode_errors'] entry, [streamline_headers]
    removes the ['deltacode_version'] and ['deltacode_options'] entries
    and no other, streamlines the errors where they are, and leaves every
    other entry as it is, in the same order. *)
Theorem streamline_headers_frame (d : dict) (errors : json) :
  dict_get k_errors d = Some errors ->
  exists d',
    fst (streamline_headers (JDict d)) = JDict d' /\
    snd (streamline_headers (JDict d)) = snd (streamline_errors errors) /\
    dict_keys d' =
      filter (fun k => negb (ustr_eqb k_version k) &&
                       negb (ustr_eqb k_options k)) (dict_keys d) /\
    dict_get k_errors d' = Some (fst (streamline_errors errors)) /\
    filter other_entry d' = filter other_entry d.
Proof.
  intros He.
  assert (He2 : dict_get k_errors (dict_pop k_options (dict_pop k_version d))
                = Some errors).
  { rewrite !dict_get_pop_ne by reflexivity. exact He. }
  unfold streamline_headers. rewrite He2.
  destruct (streamline_errors errors) as [errors' e].
  eexists. split; [reflexivity|]. split; [reflexivity|]. cbn [fst snd].
  split; [|split].
  - rewrite (dict_keys_set _ _ _ He2), !dict_keys_pop.
    apply filter_filter_andb.
  - apply dict_get_set_eq.
  - rewrite (dict_set_filter k_errors errors' other_entry _ (v0 := errors));
      [| intros w; unfold other_entry; cbn [fst];
         rewrite ustr_eqb_refl, andb_false_r; reflexivity | exact He2].
    rewrite !dict_pop_filter; [reflexivity | |];
      intros w; unfold other_entry; cbn [fst];
      rewrite ustr_eqb_refl; reflexivity.
Qed.

Lemma streamline_headers_frame_witness :
  exists d',
    fst (streamline_headers (JDict (scan_entries traceback []))) = JDict d' /\
    snd (streamline_headers (JDict (scan_entries traceback []))) =
      snd (streamline_errors traceback) /\
    dict_keys d' =
      filter (fun k => negb (ustr_eqb k_version k) &&
                       negb (ustr_eqb k_options k))
        (dict_keys (scan_entries traceback [])) /\
    dict_get k_errors d' = Some (fst (streamline_errors traceback)) /\
    filter other_entry d' = filter other_entry (scan_entries traceback []).
Proof.
  apply (@streamline_headers_frame (scan_entries traceback []) traceback).
  reflexivity.
Defined.

(* ------------------------------------------------------------------ *)
(** ** Stable sorting

    [D] is the set of elements under consideration; on it the comparison
    is a strict weak order. *)

Section SortTheory.
Variable A : Type.
Variable ltb : A -> A -> bool.
Variable D : A -> Prop.
Hypothesis asym :
  forall x y, D x -> D y -> ltb x y = true -> ltb y x = false.
Hypothesis ntrans :
  forall x y z, D x -> D y -> D z ->
    ltb x z = true -> ltb x y = true \/ ltb y z = true.

Lemma ltb_irrefl x : D x -> ltb x x = false.
Proof.
  intros Hx. destruct (ltb x x) eqn:E; [|reflexivity].
  rewrite (asym Hx Hx E) in E. discriminate.
Qed.

Lemma tied_refl x : D x -> tied ltb x x = true.
Proof. intros Hx. unfold tied. rewrite (ltb_irrefl Hx). reflexivity. Qed.

Lemma tied_sym x y : tied ltb x y = tied ltb y x.
Proof. unfold tied. apply andb_comm. Qed.

Lemma tied_not_lt a x y :
  D a -> D x -> D y ->
  tied ltb a x = true -> tied ltb a y = true -> ltb y x = false.
Proof.
  unfold tied. intros Ha Hx Hy H1 H2.
  apply andb_true_iff in H1, H2.
  destruct H1 as [H1 H1'], H2 as [H2 H2'].
  apply negb_true_iff in H1, H1', H2, H2'.
  destruct (ltb y x) eqn:E; [|reflexivity].
  destruct (ntrans Hy Ha Hx E); congruence.
Qed.

Lemma insert_by_perm x l : Permutation (insert_by ltb x l) (x :: l).
Proof.
  induction l as [|y l IH]; simpl; [reflexivity|].
  destruct (ltb y x); [|reflexivity].
  rewrite IH. apply perm_swap.
Qed.

Lemma isort_by_perm l : Permutation (isort_by ltb l) l.
Proof.
  induction l as [|x l IH]; simpl; [reflexivity|].
  rewrite insert_by_perm, IH. reflexivity.
Qed.

Lemma isort_by_Forall (P : A -> Prop) l :
  Forall P l -> Forall P (isort_by ltb l).
Proof.
  intros H. eapply Permutation_Forall; [|exact H].
  symmetry. apply isort_by_perm.
Qed.

Lemma insert_by_sorted x l :
  D x -> Forall D l ->
  sorted_by ltb l -> sorted_by ltb (insert_by ltb x l).
Proof.
  unfold sorted_by. intros Hx.
  induction l as [|y l IH]; intros HD Hs; simpl.
  - constructor; constructor.
  - inversion HD as [|? ? Hy HD']; subst.
    apply StronglySorted_inv in Hs; destruct Hs as [Hs Hy'].
    destruct (ltb y x) eqn:E.
    + constructor; [apply IH; assumption|].
      eapply Permutation_Forall;
        [symmetry; apply insert_by_perm|].
      constructor; [apply asym; assumption | exact Hy'].
    + constructor; [constructor; assumption|].
      constructor; [exact E|].
      rewrite Forall_forall in *. intros z Hz.
      destruct (ltb z x) eqn:Ez; [|reflexivity].
      destruct (ntrans (HD' z Hz) Hy Hx Ez) as [F|F];
        [rewrite (Hy' z Hz) in F | rewrite E in F]; discriminate.
Qed.

Lemma isort_by_sorted l : Forall D l -> sorted_by ltb (isort_by ltb l).
Proof.
  induction l as [|x l IH]; intros HD; simpl.
  - constructor.
  - inversion HD; subst.
    apply insert_by_sorted; auto using isort_by_Forall.
Qed.

Lemma insert_by_stable a x l :
  D a -> D x -> Forall D l ->
  filter (tied ltb a) (insert_by ltb x l) = filter (tied ltb a) (x :: l).
Proof.
  intros Ha Hx. induction l as [|y l IH]; intros HD; [reflexivity|].
  inversion HD as [|? ? Hy HD']; subst.
  cbn [insert_by]. destruct (ltb y x) eqn:E; [|reflexivity].
  cbn [filter] in *. rewrite (IH HD').
  destruct (tied ltb a x) eqn:Tx, (tied ltb a y) eqn:Ty; try reflexivity.
  rewrite (tied_not_lt Ha Hx Hy Tx Ty) in E. discriminate.
Qed.

Lemma isort_by_stable a l :
  D a -> Forall D l ->
  filter (tied ltb a) (isort_by ltb l) = filter (tied ltb a) l.
Proof.
  intros Ha. induction l as [|x l IH]; intros HD; [reflexivity|].
  inversion HD; subst. cbn [isort_by].
  rewrite insert_by_stable by auto using isort_by_Forall.
  cbn [filter]. rewrite IH by assumption. reflexivity.
Qed.

(** A list has one stable sorting only. *)
Lemma stable_sorted_unique l1 : forall l2,
  Forall D l1 -> Forall D l2 ->
  sorted_by ltb l1 -> sorted_by ltb l2 ->
  (forall a, D a -> filter (tied ltb a) l1 = filter (tied ltb a) l2) ->
  l1 = l2.
Proof.
  unfold sorted_by.
  induction l1 as [|x l1 IH]; intros [|y l2] D1 D2 S1 S2 H.
  - reflexivity.
  - inversion D2 as [|? ? Hy _]; subst.
    specialize (H y Hy). cbn [filter] in H.
    rewrite (tied_refl Hy) in H. discriminate.
  - inversion D1 as [|? ? Hx _]; subst.
    specialize (H x Hx). cbn [filter] in H.
    rewrite (tied_refl Hx) in H. discriminate.
  - inversion D1 as [|? ? Hx D1']; inversion D2 as [|? ? Hy D2']; subst.
    apply StronglySorted_inv in S1, S2.
    destruct S1 as [S1 R1], S2 as [S2 R2].
    assert (T : tied ltb x y = true).
    { destruct (tied ltb x y) eqn:T; [reflexivity|].
      assert (Hxy := H x Hx). assert (Hyx := H y Hy).
      cbn [filter] in Hxy, Hyx.
      rewrite (tied_refl Hx), T in Hxy.
      rewrite (tied_refl Hy), (tied_sym y x), T in Hyx.
      assert (I1 : In x l2).
      { apply (proj1 (filter_In (tied ltb x) x l2)).
        rewrite <- Hxy. left; reflexivity. }
      assert (I2 : In y l1).
      { apply (proj1 (filter_In (tied ltb y) y l1)).
        rewrite Hyx. left; reflexivity. }
      rewrite Forall_forall in R1, R2.
      unfold tied in T. rewrite (R1 y I2), (R2 x I1) in T.
      discriminate. }
    assert (Hxy := H x Hx). cbn [filter] in Hxy.
    rewrite (tied_refl Hx), T in Hxy.
    inversion Hxy; subst y. f_equal.
    apply IH; try assumption.
    intros a Ha. specialize (H a Ha). cbn [filter] in H.
    destruct (tied ltb a x); [inversion H; reflexivity | exact H].
Qed.
End SortTheory.

Lemma StronglySorted_snoc {A} (R : A -> A -> Prop) (l : list A) (x : A) :
  StronglySorted R l -> Forall (fun a => R a x) l ->
  StronglySorted R (l ++ [x]).
Proof.
  induction l as [|a l IH]; intros S F; simpl.
  - constructor; constructor.
  - apply StronglySorted_inv in S; destruct S as [S Ra].
    inversion F; subst.
    constructor; [apply IH; assumption|].
    apply Forall_app; split; [exact Ra | constructor; [assumption | constructor]].
Qed.

Lemma StronglySorted_rev {A} (R : A -> A -> Prop) (l : list A) :
  StronglySorted R l -> StronglySorted (fun a b => R b a) (rev l).
Proof.
  induction l as [|a l IH]; intros S; simpl; [constructor|].
  apply StronglySorted_inv in S; destruct S as [S Ra].
  apply StronglySorted_snoc; [apply IH; exact S|].
  apply Forall_rev. exact Ra.
Qed.

Lemma filter_comm {A} (f g : A -> bool) (l : list A) :
  filter f (filter g l) = filter g (filter f l).
Proof.
  rewrite !filter_filter_andb. apply filter_ext.
  intros a. apply andb_comm.
Qed.

(** Sorting with [reverse] is sorting stably by the converse comparison. *)
Section ReverseSort.
Variable A : Type.
Variable ltb : A -> A -> bool.
Variable D : A -> Prop.
Hypothesis asym :
  forall x y, D x -> D y -> ltb x y = true -> ltb y x = false.
Hypothesis ntrans :
  forall x y z, D x -> D y -> D z ->
    ltb x z = true -> ltb x y = true \/ ltb y z = true.

Lemma gtb_asym x y :
  D x -> D y -> gtb_of ltb x y = true -> gtb_of ltb y x = false.
Proof. unfold gtb_of. intros Hx Hy. apply asym; assumption. Qed.

Lemma gtb_ntrans x y z :
  D x -> D y -> D z -> gtb_of ltb x z = true ->
  gtb_of ltb x y = true \/ gtb_of ltb y z = true.
Proof.
  unfold gtb_of. intros Hx Hy Hz H.
  destruct (ntrans Hz Hy Hx H); auto.
Qed.

Lemma tied_gtb a b : tied (gtb_of ltb) a b = tied ltb a b.
Proof. unfold tied, gtb_of. apply andb_comm. Qed.

Lemma reverse_sort l :
  Forall D l ->
  rev (isort_by ltb (rev l)) = isort_by (gtb_of ltb) l.
Proof.
  intros HD.
  assert (HDr : Forall D (isort_by ltb (rev l))).
  { apply isort_by_Forall, Forall_rev, HD. }
  apply (stable_sorted_unique (ltb := gtb_of ltb) (D := D) gtb_asym).
  - apply Forall_rev, HDr.
  - apply isort_by_Forall, HD.
  - unfold sorted_by, gtb_of.
    apply (StronglySorted_rev (R := fun a b => ltb b a = false)).
    apply (isort_by_sorted ltb asym ntrans). apply Forall_rev, HD.
  - apply (isort_by_sorted (gtb_of ltb) gtb_asym gtb_ntrans), HD.
  - intros a Ha.
    rewrite (isort_by_stable (gtb_of ltb) gtb_ntrans a Ha HD).
    rewrite filter_rev.
    rewrite !(filter_ext _ _ (tied_gtb a)).
    rewrite (isort_by_stable ltb ntrans a Ha (Forall_rev HD)).
    rewrite filter_rev, rev_involutive. reflexivity.
Qed.
End ReverseSort.

(** Two stable sorts in a row, by [q] and then by [p], are one stable
    sort by [p] and, among the tied, by [q]. *)
Section LexSort.
Variable A : Type.
Variables p q : A -> A -> bool.
Variable D : A -> Prop.
Hypothesis p_asym :
  forall x y, D x -> D y -> p x y = true -> p y x = false.
Hypothesis p_ntrans :
  forall x y z, D x -> D y -> D z ->
    p x z = true -> p x y = true \/ p y z = true.
Hypothesis q_asym :
  forall x y, D x -> D y -> q x y = true -> q y x = false.
Hypothesis q_ntrans :
  forall x y z, D x -> D y -> D z ->
    q x z = true -> q x y = true \/ q y z = true.

Lemma lex_asym x y :
  D x -> D y -> lex p q x y = true -> lex p q y x = false.
Proof.
  unfold lex, tied. intros Hx Hy H.
  assert (P := p_asym Hx Hy). assert (Q := q_asym Hx Hy).
  destruct (p x y), (p y x), (q x y), (q y x); simpl in *;
    try reflexivity; try discriminate;
    try (specialize (P eq_refl); discriminate);
    try (specialize (Q eq_refl); discriminate).
Qed.

Lemma lex_ntrans x y z :
  D x -> D y -> D z -> lex p q x z = true ->
  lex p q x y = true \/ lex p q y z = true.
Proof.
  unfold lex, tied. intros Hx Hy Hz H.
  assert (P1 := p_ntrans Hx Hy Hz).
  assert (P2 := p_ntrans Hy Hz Hx).
  assert (P3 := p_ntrans Hz Hx Hy).
  assert (Q1 := q_ntrans Hx Hy Hz).
  destruct (p x z) eqn:Exz.
  - destruct (P1 eq_refl) as [-> | ->]; auto.
  - simpl in H. apply andb_true_iff in H. destruct H as [H Hq].
    apply negb_true_iff in H.
    destruct (p x y) eqn:Exy; [auto|].
    destruct (p y z) eqn:Eyz; [auto|].
    destruct (p y x) eqn:Eyx.
    { destruct (P2 eq_refl); congruence. }
    destruct (p z y) eqn:Ezy.
    { destruct (P3 eq_refl); congruence. }
    simpl. destruct (Q1 Hq) as [-> | ->]; auto.
Qed.

Lemma tied_lex a b :
  tied (lex p q) a b = tied p a b && tied q a b.
Proof.
  unfold lex, tied.
  destruct (p a b), (p b a), (q a b), (q b a); reflexivity.
Qed.

Lemma insert_by_lex_sorted x l :
  D x -> Forall D l ->
  Forall (fun z => q z x = false) l ->
  sorted_by (lex p q) l -> sorted_by (lex p q) (insert_by p x l).
Proof.
  unfold sorted_by. intros Hx.
  induction l as [|y l IH]; intros HD Hq Hs; simpl.
  - constructor; constructor.
  - inversion HD as [|? ? Hy HD']; inversion Hq as [|? ? Hqy Hq']; subst.
    apply StronglySorted_inv in Hs; destruct Hs as [Hs Hy'].
    destruct (p y x) eqn:E.
    + constructor; [apply IH; assumption|].
      eapply Permutation_Forall; [symmetry; apply insert_by_perm|].
      constructor; [|exact Hy'].
      apply lex_asym; try assumption.
      unfold lex. rewrite E. reflexivity.
    + constructor; [constructor; assumption|].
      assert (G : forall z, D z -> p z x = false -> q z x = false ->
                           lex p q z x = false).
      { intros z Hz Pz Qz. unfold lex. rewrite Pz, Qz.
        rewrite andb_false_r. reflexivity. }
      constructor; [apply G; assumption|].
      rewrite Forall_forall in *. intros z Hz.
      apply G; [apply HD'; exact Hz | | apply Hq'; exact Hz].
      destruct (p z x) eqn:Ez; [|reflexivity].
      destruct (p_ntrans (HD' z Hz) Hy Hx Ez) as [F|F];
        [|rewrite E in F; discriminate].
      assert (L := Hy' z Hz). unfold lex in L. rewrite F in L.
      discriminate.
Qed.

Lemma isort_by_lex_sorted l :
  Forall D l -> sorted_by q l -> sorted_by (lex p q) (isort_by p l).
Proof.
  unfold sorted_by at 1.
  induction l as [|x l IH]; intros HD Hs; simpl.
  - constructor.
  - inversion HD; subst.
    apply StronglySorted_inv in Hs; destruct Hs as [Hs Hx].
    apply insert_by_lex_sorted; auto using isort_by_Forall.
Qed.

Lemma two_sorts_one l :
  Forall D l ->
  isort_by p (isort_by q l) = isort_by (lex p q) l.
Proof.
  intros HD.
  assert (HDq : Forall D (isort_by q l)) by (apply isort_by_Forall, HD).
  apply (stable_sorted_unique (ltb := lex p q) (D := D) lex_asym).
  - apply isort_by_Forall, HDq.
  - apply isort_by_Forall, HD.
  - apply isort_by_lex_sorted; [exact HDq|].
    apply (isort_by_sorted q q_asym q_ntrans), HD.
  - apply (isort_by_sorted (lex p q) lex_asym lex_ntrans), HD.
  - intros a Ha.
    rewrite (isort_by_stable (lex p q) lex_ntrans a Ha HD).
    rewrite !(filter_ext _ _ (tied_lex a)).
    rewrite <- !filter_filter_andb.
    rewrite (isort_by_stable p p_ntrans a Ha HDq).
    rewrite (filter_comm (tied q a)).
    rewrite (isort_by_stable q q_ntrans a Ha HD).
    apply filter_comm.
Qed.
End LexSort.

(* ------------------------------------------------------------------ *)
(** ** [list.sort] when no comparison raises *)

Section SortReturns.
Variable A : Type.
Variable lt : A -> A -> option bool.

Lemma insert_returns x l :
  (forall y, In y l -> lt y x <> None) ->
  insert lt x l = Ok (insert_by (ltb_of lt) x l).
Proof.
  induction l as [|y l IH]; intros H; simpl; [reflexivity|].
  unfold ltb_of at 1.
  destruct (lt y x) as [[|]|] eqn:E.
  - rewrite IH; [reflexivity|]. intros z Hz. apply H. right; exact Hz.
  - reflexivity.
  - exfalso. apply (H y); [left; reflexivity | exact E].
Qed.

Lemma stable_sort_returns l :
  (forall x y, In x l -> In y l -> lt x y <> None) ->
  stable_sort lt l = Ok (isort_by (ltb_of lt) l).
Proof.
  induction l as [|x l IH]; intros H; simpl; [reflexivity|].
  rewrite IH by (intros; apply H; right; assumption). simpl.
  apply insert_returns. intros y Hy. apply H; [right | left; reflexivity].
  eapply Permutation_in; [apply isort_by_perm | exact Hy].
Qed.
End SortReturns.

Lemma insert_by_map {A B} (f : A -> B) (ltb : B -> B -> bool) x l :
  insert_by ltb (f x) (List.map f l) =
  List.map f (insert_by (fun a b => ltb (f a) (f b)) x l).
Proof.
  induction l as [|y l IH]; simpl; [reflexivity|].
  destruct (ltb (f y) (f x)); simpl; [rewrite IH|]; reflexivity.
Qed.

Lemma isort_by_map {A B} (f : A -> B) (ltb : B -> B -> bool) l :
  isort_by ltb (List.map f l) =
  List.map f (isort_by (fun a b => ltb (f a) (f b)) l).
Proof.
  induction l as [|x l IH]; simpl; [reflexivity|].
  rewrite IH. apply insert_by_map.
Qed.

Lemma mapM_returns {A B} (f : A -> result B) (g : A -> B) l :
  (forall a, In a l -> f a = Ok (g a)) -> mapM f l = Ok (List.map g l).
Proof.
  induction l as [|a l IH]; intros H; simpl; [reflexivity|].
  rewrite (H a) by (left; reflexivity). simpl.
  rewrite IH by (intros; apply H; right; assumption). reflexivity.
Qed.

Lemma combine_map_self {A B} (g : A -> B) (l : list A) :
  combine (List.map g l) l = List.map (fun a => (g a, a)) l.
Proof. induction l as [|a l IH]; simpl; [|rewrite IH]; reflexivity. Qed.

Lemma getitem_item k x : has_item k x = true -> getitem k x = Ok (item k x).
Proof.
  unfold has_item, item. destruct (getitem k x); [reflexivity | discriminate].
Qed.

Lemma comparable_spec lt ks :
  comparable lt ks = true ->
  forall x y, In x ks -> In y ks -> lt x y <> None.
Proof.
  unfold comparable. intros H x y Hx Hy.
  rewrite forallb_forall in H. specialize (H x Hx).
  rewrite forallb_forall in H. specialize (H y Hy).
  destruct (lt x y); [discriminate | discriminate].
Qed.

Lemma comparable_perm lt ks ks' :
  Permutation ks ks' -> comparable lt ks = true -> comparable lt ks' = true.
Proof.
  intros P H. unfold comparable.
  apply forallb_forall; intros x Hx. apply forallb_forall; intros y Hy.
  assert (G : lt x y <> None).
  { eapply comparable_spec; [exact H | |];
      eapply Permutation_in; try (symmetry; exact P); assumption. }
  destruct (lt x y); [reflexivity | congruence].
Qed.

Section HarnessSort.
Variable py_lt : json -> json -> option bool.

Lemma list_sort_returns (k : ustr) (reverse : bool) (l : list json) :
  forallb (has_item k) l = true ->
  comparable py_lt (List.map (item k) l) = true ->
  list_sort py_lt (getitem k) reverse l =
  Ok (let ltk := fun a b => ltb_of py_lt (item k a) (item k b) in
      if reverse then rev (isort_by ltk (rev l)) else isort_by ltk l).
Proof.
  intros Hk Hc. unfold list_sort.
  rewrite (mapM_returns (getitem k) (item k)).
  2:{ intros a Ha. apply getitem_item.
      rewrite forallb_forall in Hk. apply Hk, Ha. }
  cbn [bind]. rewrite combine_map_self.
  set (dec := fun a : json => (item k a, a)).
  assert (Hcmp : forall l', Permutation l l' ->
            forall x y, In x (List.map dec l') -> In y (List.map dec l') ->
                        lt_keys py_lt x y <> None).
  { intros l' P x y Hx Hy.
    apply in_map_iff in Hx, Hy.
    destruct Hx as [a [<- Ha]], Hy as [b [<- Hb]].
    unfold lt_keys, dec; cbn [fst].
    eapply comparable_spec; [exact Hc | |]; apply in_map;
      eapply Permutation_in; try (symmetry; exact P); assumption. }
  assert (Hsnd : forall l', List.map snd (List.map dec l') = l').
  { intros l'. rewrite map_map. unfold dec; cbn [snd]. apply map_id. }
  destruct reverse.
  - rewrite <- map_rev.
    rewrite stable_sort_returns by (apply Hcmp, Permutation_rev).
    cbn [bind].
    rewrite (isort_by_map dec (ltb_of (lt_keys py_lt))).
    rewrite <- map_rev, Hsnd. reflexivity.
  - rewrite stable_sort_returns by (apply Hcmp; reflexivity).
    cbn [bind].
    rewrite (isort_by_map dec (ltb_of (lt_keys py_lt))).
    rewrite Hsnd. reflexivity.
Qed.
End HarnessSort.

Lemma forallb_perm {A} (f : A -> bool) (l l' : list A) :
  Permutation l l' -> forallb f l = true -> forallb f l' = true.
Proof.
  intros P H. rewrite forallb_forall in *. intros x Hx.
  apply H. eapply Permutation_in; [symmetry; exact P | exact Hx].
Qed.

Lemma all_strings (es : list json) :
  forallb is_str es = true -> exists ss, es = List.map JStr ss.
Proof.
  induction es as [|e es IH]; simpl; intros H.
  - exists []. reflexivity.
  - apply andb_true_iff in H; destruct H as [He H].
    destruct (IH H) as [ss ->]. destruct e; try discriminate.
    exists (s :: ss). reflexivity.
Qed.

Section Load.
Variable py_lt : json -> json -> option bool.

(** On well-formed scan results [load_scan_results] returns, and the
    deltas of its result are the deltas it was given, sorted by both
    sorts. *)
Lemma load_scan_results_returns (scan_results : json) :
  well_formed py_lt scan_results = true ->
  exists r,
    load_scan_results py_lt scan_results = Ok r /\
    deltas_of r = sorted_deltas py_lt (deltas_of scan_results).
Proof.
  unfold well_formed. destruct scan_results as [| | | | |d]; try discriminate.
  destruct (dict_get k_errors d) as [[| | | |es|]|] eqn:He; try discriminate.
  destruct (dict_get k_deltas d) as [[| | | |ds|]|] eqn:Hd; try discriminate.
  intros H.
  repeat (apply andb_true_iff in H; destruct H as [H ?Hw]).
  destruct (all_strings _ H) as [ss ->].
  unfold load_scan_results, streamline_headers.
  rewrite !dict_get_pop_ne, He by reflexivity.
  rewrite streamline_errors_strings.
  set (d1 := dict_set k_errors _ _).
  assert (Hd1 : dict_get k_deltas d1 = Some (JList ds)).
  { unfold d1. rewrite dict_get_set_ne, !dict_get_pop_ne by reflexivity.
    exact Hd. }
  set (ds1 := isort_by (lt_factors py_lt) ds).
  assert (P1 : Permutation ds ds1).
  { symmetry. apply isort_by_perm. }
  assert (S1 : sort_deltas py_lt k_factors false (JDict d1) =
               Ok (JDict (dict_set k_deltas (JList ds1) d1))).
  { unfold sort_deltas.
    replace (getitem k_deltas (JDict d1)) with (Ok (JList ds))
      by (unfold getitem; rewrite Hd1; reflexivity).
    cbn [bind].
    rewrite list_sort_returns by assumption. reflexivity. }
  rewrite S1. cbn [bind].
  assert (S2 : sort_deltas py_lt k_score true
                 (JDict (dict_set k_deltas (JList ds1) d1)) =
               Ok (JDict (dict_set k_deltas
                            (JList (sorted_deltas py_lt ds))
                            (dict_set k_deltas (JList ds1) d1)))).
  { unfold sort_deltas.
    replace (getitem k_deltas (JDict (dict_set k_deltas (JList ds1) d1)))
      with (Ok (JList ds1))
      by (unfold getitem; rewrite dict_get_set_eq; reflexivity).
    cbn [bind].
    rewrite list_sort_returns.
    - reflexivity.
    - eapply forallb_perm; [exact P1 | assumption].
    - eapply comparable_perm; [apply Permutation_map; exact P1 | assumption]. }
  rewrite S2. eexists. split; [reflexivity|].
  unfold deltas_of, item, getitem.
  rewrite dict_get_set_eq, Hd. reflexivity.
Qed.
End Load.

(* ------------------------------------------------------------------ *)
(** ** The order of the deltas *)

Lemma weakly_ordered_comparable lt ks :
  weakly_ordered lt ks = true -> comparable lt ks = true.
Proof. unfold weakly_ordered. intros H. apply andb_true_iff in H. tauto. Qed.

Lemma weakly_ordered_asym lt ks :
  weakly_ordered lt ks = true ->
  forall x y, In x ks -> In y ks ->
    ltb_of lt x y = true -> ltb_of lt y x = false.
Proof.
  unfold weakly_ordered. intros H x y Hx Hy L.
  apply andb_true_iff in H; destruct H as [_ H].
  rewrite forallb_forall in H. specialize (H x Hx).
  rewrite forallb_forall in H. specialize (H y Hy).
  apply andb_true_iff in H; destruct H as [H _].
  rewrite L in H. simpl in H. apply negb_true_iff in H. exact H.
Qed.

Lemma weakly_ordered_ntrans lt ks :
  weakly_ordered lt ks = true ->
  forall x y z, In x ks -> In y ks -> In z ks ->
    ltb_of lt x z = true -> ltb_of lt x y = true \/ ltb_of lt y z = true.
Proof.
  unfold weakly_ordered. intros H x y z Hx Hy Hz L.
  apply andb_true_iff in H; destruct H as [_ H].
  rewrite forallb_forall in H. specialize (H x Hx).
  rewrite forallb_forall in H. specialize (H y Hy).
  apply andb_true_iff in H; destruct H as [_ H].
  rewrite forallb_forall in H. specialize (H z Hz).
  rewrite L in H. simpl in H. apply orb_true_iff in H. exact H.
Qed.

Lemma StronglySorted_weaken {A} (R R' : A -> A -> Prop) (l : list A) :
  (forall a b, R a b -> R' a b) ->
  StronglySorted R l -> StronglySorted R' l.
Proof.
  intros HR. induction 1 as [|a l S IH F]; constructor; [exact IH|].
  rewrite Forall_forall in *. intros b Hb. apply HR, F, Hb.
Qed.

Section Ranking.
Variable py_lt : json -> json -> option bool.
Variable ds : list json.
Hypothesis scores_ordered :
  weakly_ordered py_lt (List.map (item k_score) ds) = true.
Hypothesis factors_ordered :
  weakly_ordered py_lt (List.map (item k_factors) ds) = true.

Let D (a : json) : Prop := In a ds.

Lemma lt_score_asym x y :
  D x -> D y -> lt_score py_lt x y = true -> lt_score py_lt y x = false.
Proof.
  intros Hx Hy. apply (weakly_ordered_asym _ _ scores_ordered);
    apply in_map; assumption.
Qed.

Lemma lt_score_ntrans x y z :
  D x -> D y -> D z -> lt_score py_lt x z = true ->
  lt_score py_lt x y = true \/ lt_score py_lt y z = true.
Proof.
  intros Hx Hy Hz. apply (weakly_ordered_ntrans _ _ scores_ordered);
    apply in_map; assumption.
Qed.

Lemma lt_factors_asym x y :
  D x -> D y -> lt_factors py_lt x y = true -> lt_factors py_lt y x = false.
Proof.
  intros Hx Hy. apply (weakly_ordered_asym _ _ factors_ordered);
    apply in_map; assumption.
Qed.

Lemma lt_factors_ntrans x y z :
  D x -> D y -> D z -> lt_factors py_lt x z = true ->
  lt_factors py_lt x y = true \/ lt_factors py_lt y z = true.
Proof.
  intros Hx Hy Hz. apply (weakly_ordered_ntrans _ _ factors_ordered);
    apply in_map; assumption.
Qed.

Lemma before_asym x y :
  D x -> D y -> before_by_score_factors py_lt x y = true ->
  before_by_score_factors py_lt y x = false.
Proof.
  apply (lex_asym (gt_score py_lt) (lt_factors py_lt) D
           (gtb_asym (lt_score py_lt) D lt_score_asym) lt_factors_asym).
Qed.

Lemma before_ntrans x y z :
  D x -> D y -> D z -> before_by_score_factors py_lt x z = true ->
  before_by_score_factors py_lt x y = true \/
  before_by_score_factors py_lt y z = true.
Proof.
  apply (lex_ntrans (gt_score py_lt) (lt_factors py_lt) D
           (gtb_ntrans (lt_score py_lt) D lt_score_ntrans)
           lt_factors_ntrans).
Qed.

Lemma all_in_D : Forall D ds.
Proof. apply Forall_forall. intros a Ha. exact Ha. Qed.

(** Both sorts together are one stable sort by score, descending, and
    then by factors. *)
Lemma sorted_deltas_one_sort :
  sorted_deltas py_lt ds = isort_by (before_by_score_factors py_lt) ds.
Proof.
  unfold sorted_deltas.
  rewrite (reverse_sort (lt_score py_lt) (D := D)
             lt_score_asym lt_score_ntrans)
    by (apply isort_by_Forall, all_in_D).
  apply (two_sorts_one (gt_score py_lt) (lt_factors py_lt) (D := D)
           (gtb_asym (lt_score py_lt) D lt_score_asym)
           (gtb_ntrans (lt_score py_lt) D lt_score_ntrans)
           lt_factors_asym lt_factors_ntrans all_in_D).
Qed.

Lemma sorted_deltas_sorted :
  sorted_by (before_by_score_factors py_lt) (sorted_deltas py_lt ds).
Proof.
  rewrite sorted_deltas_one_sort.
  apply (isort_by_sorted _ before_asym before_ntrans), all_in_D.
Qed.

Lemma sorted_deltas_stable a :
  In a ds ->
  filter (tied (before_by_score_factors py_lt) a) (sorted_deltas py_lt ds) =
  filter (tied (before_by_score_factors py_lt) a) ds.
Proof.
  intros Ha. rewrite sorted_deltas_one_sort.
  apply (isort_by_stable _ before_ntrans a Ha all_in_D).
Qed.

(** The order of the result is fixed by the deltas given: whatever list
    of them is sorted in this way, the tied in their order, is the result. *)
Lemma sorted_deltas_unique l :
  Forall D l ->
  sorted_by (before_by_score_factors py_lt) l ->
  (forall a, In a ds ->
     filter (tied (before_by_score_factors py_lt) a) l =
     filter (tied (before_by_score_factors py_lt) a) ds) ->
  l = sorted_deltas py_lt ds.
Proof.
  intros Hl Hs Hf. rewrite sorted_deltas_one_sort.
  apply (stable_sorted_unique (D := D) before_asym).
  - exact Hl.
  - apply isort_by_Forall, all_in_D.
  - exact Hs.
  - apply (isort_by_sorted _ before_asym before_ntrans), all_in_D.
  - intros a Ha. rewrite (Hf a Ha). symmetry.
    apply (isort_by_stable _ before_ntrans a Ha all_in_D).
Qed.

Lemma sorted_deltas_perm : Permutation (sorted_deltas py_lt ds) ds.
Proof.
  unfold sorted_deltas.
  rewrite <- Permutation_rev, isort_by_perm, <- Permutation_rev.
  apply isort_by_perm.
Qed.
End Ranking.

Lemma well_ordered_parts py_lt scan_results :
  well_ordered py_lt scan_results = true ->
  well_formed py_lt scan_results = true /\
  weakly_ordered py_lt
    (List.map (item k_score) (deltas_of scan_results)) = true /\
  weakly_ordered py_lt
    (List.map (item k_factors) (deltas_of scan_results)) = true.
Proof.
  unfold well_ordered. intros H.
  apply andb_true_iff in H; destruct H as [H H3].
  apply andb_true_iff in H; destruct H as [H1 H2]. auto.
Qed.

Lemma load_json_result_from_string_decoded py_lt json_loads string
    remove_file_date scan_results :
  json_loads string = Some scan_results ->
  load_json_result_from_string py_lt json_loads string remove_file_date =
  load_scan_results py_lt scan_results.
Proof. unfold load_json_result_from_string. intros ->. reflexivity. Qed.

(** C2, as the code has it: the returned deltas are the given ones,
    ordered by score descending and then by factors ascending; deltas
    that are tied on both keep the order they came in, no path being
    looked at. *)
Theorem deltas_order_is_stable
    (py_lt : json -> json -> option bool) (json_loads : ustr -> option json)
    (string : ustr) (remove_file_date : bool) (scan_results : json) :
  json_loads string = Some scan_results ->
  well_ordered py_lt scan_results = true ->
  exists r,
    load_json_result_from_string py_lt json_loads string remove_file_date
      = Ok r /\
    Permutation (deltas_of r) (deltas_of scan_results) /\
    sorted_by (before_by_score_factors py_lt) (deltas_of r) /\
    forall a, In a (deltas_of scan_results) ->
      filter (tied (before_by_score_factors py_lt) a) (deltas_of r) =
      filter (tied (before_by_score_factors py_lt) a)
        (deltas_of scan_results).
Proof.
  intros Hl Hw. apply well_ordered_parts in Hw. destruct Hw as [Hf [Hs Hq]].
  rewrite (@load_json_result_from_string_decoded py_lt json_loads string
             remove_file_date scan_results Hl).
  destruct (load_scan_results_returns py_lt scan_results Hf) as [r [Hr Hd]].
  exists r. split; [exact Hr|]. rewrite Hd.
  split; [apply sorted_deltas_perm|].
  split; [apply sorted_deltas_sorted; assumption|].
  intros a Ha. apply sorted_deltas_stable; assumption.
Qed.

Lemma deltas_order_is_stable_witness :
  exists r,
    load_json_result_from_string py3_lt loads_example
      (dumps false scan_tied) false = Ok r /\
    Permutation (deltas_of r) (deltas_of scan_tied) /\
    sorted_by (before_by_score_factors py3_lt) (deltas_of r) /\
    forall a, In a (deltas_of scan_tied) ->
      filter (tied (before_by_score_factors py3_lt) a) (deltas_of r) =
      filter (tied (before_by_score_factors py3_lt) a) (deltas_of scan_tied).
Proof.
  apply (@deltas_order_is_stable py3_lt loads_example
           (dumps false scan_tied) false scan_tied);
    vm_compute; reflexivity.
Defined.

(** C2 as stated fails: of two deltas tied on score and factors the one
    with the larger path stays first when it came first. *)
Lemma tied_deltas_not_ordered_by_path :
  exists r,
    load_json_result_from_string py3_lt loads_example
      (dumps false scan_tied) false = Ok r /\
    deltas_of r = [delta 0 [] "b.c"; delta 0 [] "a.c"] /\
    ~ strictly_ordered py3_lt (fun f => f) new_path (deltas_of r).
Proof.
  eexists. split; [vm_compute; reflexivity|].
  split; [vm_compute; reflexivity|].
  intros H.
  replace (deltas_of _) with [delta 0 [] "b.c"; delta 0 [] "a.c"] in H
    by (vm_compute; reflexivity).
  apply StronglySorted_inv in H. destruct H as [_ H].
  apply Forall_inv in H.
  assert (F : before_by_triple py3_lt (fun f => f) new_path
                (delta 0 [] "b.c") (delta 0 [] "a.c") = false)
    by (vm_compute; reflexivity).
  rewrite H in F; [discriminate F|]. intros N. discriminate N.
Qed.

(** C3, as the code has it: both sorts together are one stable sort with
    the comparator that combines score descending and factors ascending. *)
Theorem two_sorts_are_one_stable_sort
    (py_lt : json -> json -> option bool) (json_loads : ustr -> option json)
    (string : ustr) (remove_file_date : bool) (scan_results : json) :
  json_loads string = Some scan_results ->
  well_ordered py_lt scan_results = true ->
  exists r,
    load_json_result_from_string py_lt json_loads string remove_file_date
      = Ok r /\
    deltas_of r =
      isort_by (before_by_score_factors py_lt) (deltas_of scan_results).
Proof.
  intros Hl Hw. apply well_ordered_parts in Hw. destruct Hw as [Hf [Hs Hq]].
  rewrite (@load_json_result_from_string_decoded py_lt json_loads string
             remove_file_date scan_results Hl).
  destruct (load_scan_results_returns py_lt scan_results Hf) as [r [Hr Hd]].
  exists r. split; [exact Hr|]. rewrite Hd.
  apply sorted_deltas_one_sort; assumption.
Qed.

Lemma two_sorts_are_one_stable_sort_witness :
  exists r,
    load_json_result_from_string py3_lt loads_example
      (dumps false scan_mixed) false = Ok r /\
    deltas_of r =
      isort_by (before_by_score_factors py3_lt) (deltas_of scan_mixed).
Proof.
  apply (@two_sorts_are_one_stable_sort py3_lt loads_example
           (dumps false scan_mixed) false scan_mixed);
    vm_compute; reflexivity.
Defined.

(** C3 as stated fails: on two deltas tied on score and factors, the
    single sort that also compares paths gives another list than both
    sorts of the harness. *)
Lemma two_sorts_differ_from_single_sort :
  exists r,
    load_json_result_from_string py3_lt loads_example
      (dumps false scan_tied) false = Ok r /\
    deltas_of r <>
      single_sort py3_lt (fun f => f) new_path (deltas_of scan_tied).
Proof.
  eexists. split; [vm_compute; reflexivity|].
  vm_compute. intros E. discriminate E.
Qed.

(** C7, as the code has it: on a scan-result mapping whose
    ['deltacode_errors'] is a list of strings and whose ['deltas'] is a
    list of entries with ['factors'] and ['score'], the factors being
    comparable with each other and the scores too,
    [load_json_result_from_string] returns. *)
Theorem load_json_result_from_string_returns
    (py_lt : json -> json -> option bool) (json_loads : ustr -> option json)
    (string : ustr) (remove_file_date : bool) (scan_results : json) :
  json_loads string = Some scan_results ->
  well_formed py_lt scan_results = true ->
  exists r,
    load_json_result_from_string py_lt json_loads string remove_file_date
      = Ok r.
Proof.
  intros Hl Hf.
  rewrite (@load_json_result_from_string_decoded py_lt json_loads string
             remove_file_date scan_results Hl).
  destruct (load_scan_results_returns py_lt scan_results Hf) as [r [Hr _]].
  exists r. exact Hr.
Qed.

Lemma load_json_result_from_string_returns_witness :
  exists r,
    load_json_result_from_string py3_lt loads_example
      (dumps false scan_mixed) false = Ok r.
Proof.
  apply (@load_json_result_from_string_returns py3_lt loads_example
           (dumps false scan_mixed) false scan_mixed);
    vm_compute; reflexivity.
Defined.

(** C7 as stated fails: an error that is not a string has no
    [splitlines], and two mappings as factors are not comparable on
    Python 3. *)
Lemma load_json_result_from_string_raises :
  described scan_bad_error = true /\
  load_json_result_from_string py3_lt loads_example
    (dumps false scan_bad_error) false = Raise AttributeError /\
  described scan_mappings = true /\
  load_json_result_from_string py3_lt loads_example
    (dumps false scan_mappings) false = Raise TypeError.
Proof. repeat split; vm_compute; reflexivity. Qed.

(* ------------------------------------------------------------------ *)
(** ** Exceptions of the loader *)

(** [r] is not a failed assertion. *)
Lemma bind_no_assert {A B} (r : result A) (k : A -> result B) :
  r <> Raise AssertionError ->
  (forall a, k a <> Raise AssertionError) ->
  bind r k <> Raise AssertionError.
Proof.
  destruct r as [a|e]; simpl; intros H1 H2; [apply H2|].
  intros E. apply H1. inversion E. reflexivity.
Qed.

Lemma mapM_no_assert {A B} (f : A -> result B) (l : list A) :
  (forall a, f a <> Raise AssertionError) ->
  mapM f l <> Raise AssertionError.
Proof.
  intros H. induction l as [|a l IH]; simpl; [discriminate|].
  apply bind_no_assert; [apply H|]. intros b.
  apply bind_no_assert; [exact IH|]. discriminate.
Qed.

Lemma getitem_no_assert k x : getitem k x <> Raise AssertionError.
Proof.
  unfold getitem. destruct x; try discriminate.
  destruct (dict_get k d); discriminate.
Qed.

Lemma insert_no_assert {A} (lt : A -> A -> option bool) x l :
  insert lt x l <> Raise AssertionError.
Proof.
  induction l as [|y l IH]; simpl; [discriminate|].
  destruct (lt y x) as [[|]|]; try discriminate.
  apply bind_no_assert; [exact IH | discriminate].
Qed.

Lemma stable_sort_no_assert {A} (lt : A -> A -> option bool) l :
  stable_sort lt l <> Raise AssertionError.
Proof.
  induction l as [|x l IH]; simpl; [discriminate|].
  apply bind_no_assert; [exact IH|]. intros s. apply insert_no_assert.
Qed.

Lemma streamline_errors_loop_no_assert i copy errors :
  snd (streamline_errors_loop i copy errors) <> Some AssertionError.
Proof.
  revert i errors. induction copy as [|e rest IH]; intros i errors; simpl.
  - discriminate.
  - destruct e; simpl; try discriminate.
    destruct (cleaned_error s); apply IH.
Qed.

Lemma streamline_errors_no_assert errors :
  snd (streamline_errors errors) <> Some AssertionError.
Proof.
  destruct errors; simpl; try discriminate.
  assert (H := streamline_errors_loop_no_assert 0 l l).
  destruct (streamline_errors_loop 0 l l). exact H.
Qed.

Lemma streamline_headers_no_assert headers :
  snd (streamline_headers headers) <> Some AssertionError.
Proof.
  destruct headers; simpl; try discriminate.
  destruct (dict_get k_errors _) as [errors|]; simpl; [|discriminate].
  assert (H := streamline_errors_no_assert errors).
  destruct (streamline_errors errors). exact H.
Qed.

Section LoadExceptions.
Variable py_lt : json -> json -> option bool.
Variable json_loads : ustr -> option json.

Lemma list_sort_no_assert key reverse l :
  (forall a, key a <> Raise AssertionError) ->
  list_sort py_lt key reverse l <> Raise AssertionError.
Proof.
  intros Hk. unfold list_sort.
  apply bind_no_assert; [apply mapM_no_assert, Hk|]. intros keys.
  apply bind_no_assert; [|discriminate].
  destruct reverse; [|apply stable_sort_no_assert].
  apply bind_no_assert; [apply stable_sort_no_assert | discriminate].
Qed.

Lemma sort_deltas_no_assert k reverse scan_results :
  sort_deltas py_lt k reverse scan_results <> Raise AssertionError.
Proof.
  unfold sort_deltas.
  apply bind_no_assert; [apply getitem_no_assert|]. intros deltas.
  destruct deltas; try discriminate.
  destruct scan_results; try discriminate.
  apply bind_no_assert; [|discriminate].
  apply list_sort_no_assert, getitem_no_assert.
Qed.

Lemma load_scan_results_no_assert scan_results :
  load_scan_results py_lt scan_results <> Raise AssertionError.
Proof.
  unfold load_scan_results.
  assert (H := streamline_headers_no_assert scan_results).
  destruct (streamline_headers scan_results) as [sr [e|]]; simpl in H.
  - congruence.
  - apply bind_no_assert; intros; apply sort_deltas_no_assert.
Qed.

Lemma load_json_result_no_assert fs location remove_file_date :
  load_json_result py_lt json_loads fs location remove_file_date
  <> Raise AssertionError.
Proof.
  unfold load_json_result, load_json_result_from_string.
  destruct (fs location) as [text|]; [|discriminate].
  destruct (json_loads text); [|discriminate].
  apply load_scan_results_no_assert.
Qed.
End LoadExceptions.

Lemma pop_headers_no_assert x : pop_headers x <> Raise AssertionError.
Proof. destruct x; discriminate. Qed.

(* ------------------------------------------------------------------ *)
(** ** [check_json_scan] without [regen] *)

(** The flag [remove_file_date] is not used. *)
Lemma remove_file_date_unused py_lt json_loads string flag1 flag2 :
  load_json_result_from_string py_lt json_loads string flag1 =
  load_json_result_from_string py_lt json_loads string flag2.
Proof. reflexivity. Qed.

(** C5: without [regen], [check_json_scan] fails its assertion exactly
    when both files load and their normalised serialisations differ; when
    they are equal it returns; and the files are left as they were. *)
Theorem check_json_scan_asserts
    (py_lt : json -> json -> option bool) (json_loads : ustr -> option json)
    (json_dumps : bool -> json -> ustr)
    (write_binary : ustr -> option ustr) (fs : files)
    (expected_file result_file : String.string)
    (remove_file_date ignore_headers : bool) :
  fst (check_json_scan py_lt json_loads json_dumps write_binary fs
         expected_file result_file false remove_file_date ignore_headers)
    = fs /\
  (snd (check_json_scan py_lt json_loads json_dumps write_binary fs
          expected_file result_file false remove_file_date ignore_headers)
     = Raise AssertionError <->
   exists e r,
     normalised py_lt json_loads json_dumps fs expected_file
       remove_file_date ignore_headers = Ok e /\
     normalised py_lt json_loads json_dumps fs result_file
       remove_file_date ignore_headers = Ok r /\
     e <> r) /\
  (forall e r,
     normalised py_lt json_loads json_dumps fs expected_file
       remove_file_date ignore_headers = Ok e ->
     normalised py_lt json_loads json_dumps fs result_file
       remove_file_date ignore_headers = Ok r ->
     e = r ->
     snd (check_json_scan py_lt json_loads json_dumps write_binary fs
            expected_file result_file false remove_file_date
            ignore_headers) = Ok tt).
Proof.
  unfold check_json_scan, check_loaded, normalised.
  assert (Nr := load_json_result_no_assert py_lt json_loads fs result_file
                  remove_file_date).
  assert (Ne := load_json_result_no_assert py_lt json_loads fs expected_file
                  remove_file_date).
  destruct (load_json_result py_lt json_loads fs result_file
              remove_file_date) as [results|xr].
  2:{ cbn. split; [reflexivity|]. split; [split|].
      - intros E. inversion E. congruence.
      - intros [e [r [_ [H _]]]]. discriminate H.
      - intros e r _ H. discriminate H. }
  destruct (load_json_result py_lt json_loads fs expected_file
              remove_file_date) as [expected|xe].
  2:{ cbn. split; [reflexivity|]. split; [split|].
      - intros E. inversion E. congruence.
      - intros [e [r [H _]]]. discriminate H.
      - intros e r H. discriminate H. }
  destruct ignore_headers; cbn [bind].
  - assert (Pr := pop_headers_no_assert results).
    assert (Pe := pop_headers_no_assert expected).
    destruct (pop_headers results) as [results'|xr].
    2:{ cbn. split; [reflexivity|]. split; [split|].
        - intros E. inversion E. congruence.
        - intros [e [r [_ [H _]]]]. discriminate H.
        - intros e r _ H. discriminate H. }
    destruct (pop_headers expected) as [expected'|xe].
    2:{ cbn. split; [reflexivity|]. split; [split|].
        - intros E. inversion E. congruence.
        - intros [e [r [H _]]]. discriminate H.
        - intros e r H. discriminate H. }
    cbn.
    destruct (ustr_eqb (json_dumps true expected')
                (json_dumps true results')) eqn:Q; cbn.
    + apply ustr_eqb_eq in Q.
      split; [reflexivity|]. split; [split|].
      * discriminate.
      * intros [e [r [He [Hr Hne]]]]. inversion He; inversion Hr. congruence.
      * reflexivity.
    + apply ustr_eqb_neq in Q.
      split; [reflexivity|]. split; [split|].
      * intros _. eexists _, _. repeat split; [exact Q].
      * reflexivity.
      * intros e r He Hr. inversion He; inversion Hr. congruence.
  - cbn.
    destruct (ustr_eqb (json_dumps true expected)
                (json_dumps true results)) eqn:Q; cbn.
    + apply ustr_eqb_eq in Q.
      split; [reflexivity|]. split; [split|].
      * discriminate.
      * intros [e [r [He [Hr Hne]]]]. inversion He; inversion Hr. congruence.
      * reflexivity.
    + apply ustr_eqb_neq in Q.
      split; [reflexivity|]. split; [split|].
      * intros _. eexists _, _. repeat split; [exact Q].
      * reflexivity.
      * intros e r He Hr. inversion He; inversion Hr. congruence.
Qed.

(* ------------------------------------------------------------------ *)
(** ** The diff engine: every record is accounted for once *)

Module DiffEngineFacts.
Import DiffEngine.

Lemma path_eqb_refl (p : list String.string) : path_eqb p p = true.
Proof.
  unfold path_eqb. destruct (list_eq_dec string_dec p p); congruence.
Qed.

(** Records of different paths are different records. *)
Lemma duplicate_path_NoDup (s : Snapshot) :
  duplicate_path s = false -> NoDup s.
Proof.
  induction s as [|r s IH]; simpl; intros H; [constructor|].
  apply orb_false_iff in H. destruct H as [H1 H2].
  constructor; [|apply IH, H2].
  intros Hr.
  assert (E : existsb (fun r' => path_eqb (path r) (path r')) s = true).
  { apply existsb_exists. exists r. split; [exact Hr | apply path_eqb_refl]. }
  congruence.
Qed.

Lemma picks_perm {A} (l : list A) (a : A) (rest : list A) :
  In (a, rest) (picks l) -> Permutation (a :: rest) l.
Proof.
  revert a rest. induction l as [|x l IH]; intros a rest; simpl; [intros []|].
  intros [E|H].
  - inversion E; subst. reflexivity.
  - apply in_map_iff in H. destruct H as [[b rest'] [E H]].
    simpl in E. inversion E; subst.
    rewrite perm_swap. apply perm_skip. apply IH, H.
Qed.

Lemma pair_same_perm same olds : forall news ps ro rn,
  pair_same same olds news = (ps, ro, rn) ->
  Permutation (List.map fst ps ++ ro) olds /\
  Permutation (List.map snd ps ++ rn) news.
Proof.
  induction olds as [|o olds IH]; intros news ps ro rn; simpl.
  - intros E; inversion E; subst. split; reflexivity.
  - destruct (find (fun p => same o (fst p)) (picks news))
      as [[n news']|] eqn:F.
    + apply find_some in F. destruct F as [F _].
      apply picks_perm in F.
      destruct (pair_same same olds news') as [[ps' ro'] rn'] eqn:R.
      intros E; inversion E; subst.
      destruct (IH _ _ _ _ R) as [P1 P2]. simpl. split.
      * apply perm_skip, P1.
      * rewrite <- F. apply perm_skip, P2.
    + destruct (pair_same same olds news) as [[ps' ro'] rn'] eqn:R.
      intros E; inversion E; subst.
      destruct (IH _ _ _ _ R) as [P1 P2]. split; [|exact P2].
      rewrite <- Permutation_middle. apply perm_skip, P1.
Qed.

Lemma candidates_perm olds news o n ro rn :
  In (o, n, ro, rn) (candidates olds news) ->
  Permutation (o :: ro) olds /\ Permutation (n :: rn) news.
Proof.
  unfold candidates. intros H.
  apply in_flat_map in H. destruct H as [[o' ro'] [Ho H]].
  apply in_map_iff in H. destruct H as [[n' rn'] [E Hn]].
  apply filter_In in Hn. destruct Hn as [Hn _].
  simpl in E. inversion E; subst.
  split; apply picks_perm; assumption.
Qed.

Lemma best_In (cs : list Candidate) (c : Candidate) :
  best cs = Some c -> In c cs.
Proof.
  revert c. induction cs as [|c0 cs IH]; intros c; simpl; [discriminate|].
  destruct (best cs) as [c'|].
  - destruct (better c' c0); intros E; inversion E; subst.
    + right. apply IH. reflexivity.
    + left. reflexivity.
  - intros E; inversion E. left. reflexivity.
Qed.

Lemma best_None (cs : list Candidate) : best cs = None -> cs = [].
Proof.
  destruct cs as [|c cs]; simpl; [reflexivity|].
  destruct (best cs) as [c'|]; [destruct (better c' c)|]; discriminate.
Qed.

Lemma pair_moved_perm fuel : forall olds news ps ro rn,
  pair_moved fuel olds news = (ps, ro, rn) ->
  Permutation (List.map fst ps ++ ro) olds /\
  Permutation (List.map snd ps ++ rn) news.
Proof.
  induction fuel as [|fuel IH]; intros olds news ps ro rn; simpl.
  - intros E; inversion E; subst. split; reflexivity.
  - destruct (best (candidates olds news)) as [[[[o n] olds'] news']|] eqn:B.
    + apply best_In, candidates_perm in B. destruct B as [B1 B2].
      destruct (pair_moved fuel olds' news') as [[ps' ro'] rn'] eqn:R.
      intros E; inversion E; subst.
      destruct (IH _ _ _ _ _ R) as [P1 P2]. simpl. split.
      * rewrite <- B1. apply perm_skip, P1.
      * rewrite <- B2. apply perm_skip, P2.
    + intros E; inversion E; subst. split; reflexivity.
Qed.

(** With one round for each old record no move is left. *)
Lemma pair_moved_done fuel : forall olds news ps ro rn,
  List.length olds <= fuel ->
  pair_moved fuel olds news = (ps, ro, rn) ->
  candidates ro rn = [].
Proof.
  induction fuel as [|fuel IH]; intros olds news ps ro rn Hlen; simpl.
  - intros E; inversion E; subst.
    destruct ro; [reflexivity | simpl in Hlen; lia].
  - destruct (best (candidates olds news)) as [[[[o n] olds'] news']|] eqn:B.
    + apply best_In, candidates_perm in B. destruct B as [B1 _].
      apply Permutation_length in B1. simpl in B1.
      destruct (pair_moved fuel olds' news') as [[ps' ro'] rn'] eqn:R.
      intros E; inversion E; subst.
      eapply IH; [|exact R]. lia.
    + intros E; inversion E; subst. apply best_None, B.
Qed.

Lemma flat_map_both_old k ps :
  flat_map (fun p => side (pair_old p)) (List.map (both k) ps) =
  List.map fst ps.
Proof. induction ps as [|p ps IH]; simpl; [|rewrite IH]; reflexivity. Qed.

Lemma flat_map_both_new k ps :
  flat_map (fun p => side (pair_new p)) (List.map (both k) ps) =
  List.map snd ps.
Proof. induction ps as [|p ps IH]; simpl; [|rewrite IH]; reflexivity. Qed.

Lemma flat_map_removed {P} (f : P -> option FileRecord) l
    (g : FileRecord -> P) :
  (forall o, f (g o) = Some o) ->
  flat_map (fun p => side (f p)) (List.map g l) = l.
Proof.
  intros H. induction l as [|o l IH]; simpl; [reflexivity|].
  rewrite H, IH. reflexivity.
Qed.

Lemma flat_map_none {P} (f : P -> option FileRecord) l
    (g : FileRecord -> P) :
  (forall o : FileRecord, f (g o) = None) ->
  flat_map (fun p => side (f p)) (List.map g l) = [].
Proof.
  intros H. induction l as [|o l IH]; simpl; [reflexivity|].
  rewrite H, IH. reflexivity.
Qed.

(** No record is matched twice: the old sides of the pairs are the old
    snapshot up to order, and so for the new sides. *)
Lemma matcher_covers olds news :
  Permutation (flat_map (fun p => side (pair_old p)) (matcher olds news))
    olds /\
  Permutation (flat_map (fun p => side (pair_new p)) (matcher olds news))
    news.
Proof.
  unfold matcher.
  destruct (pair_same same_identity olds news) as [[u o1] n1] eqn:E1.
  destruct (pair_moved (List.length o1) o1 n1) as [[m o2] n2] eqn:E2.
  destruct (pair_same same_path o2 n2) as [[c o3] n3] eqn:E3.
  apply pair_same_perm in E1, E3. apply pair_moved_perm in E2.
  destruct E1 as [A1 B1], E2 as [A2 B2], E3 as [A3 B3].
  rewrite !flat_map_app, !flat_map_both_old, !flat_map_both_new.
  rewrite (flat_map_removed pair_old o3 (fun o => (Removed, Some o, None)))
    by reflexivity.
  rewrite (flat_map_none pair_old n3 (fun n => (Added, None, Some n)))
    by reflexivity.
  rewrite (flat_map_none pair_new o3 (fun o => (Removed, Some o, None)))
    by reflexivity.
  rewrite (flat_map_removed pair_new n3 (fun n => (Added, None, Some n)))
    by reflexivity.
  rewrite !app_nil_r. cbn [app]. split.
  - rewrite <- A1, <- A2, <- A3. rewrite !app_assoc. reflexivity.
  - rewrite <- B1, <- B2, <- B3. rewrite !app_assoc. reflexivity.
Qed.

Lemma olds_of_classify c ps :
  olds_of (List.map (classify c) ps) =
  flat_map (fun p => side (pair_old p)) ps.
Proof.
  unfold olds_of. induction ps as [|[[k o] n] ps IH]; simpl;
    [|rewrite IH]; reflexivity.
Qed.

Lemma news_of_classify c ps :
  news_of (List.map (classify c) ps) =
  flat_map (fun p => side (pair_new p)) ps.
Proof.
  unfold news_of. induction ps as [|[[k o] n] ps IH]; simpl;
    [|rewrite IH]; reflexivity.
Qed.

Lemma matcher_one_side olds news :
  Forall (fun p => pair_old p <> None \/ pair_new p <> None)
    (matcher olds news).
Proof.
  unfold matcher.
  destruct (pair_same same_identity olds news) as [[u o1] n1].
  destruct (pair_moved (List.length o1) o1 n1) as [[m o2] n2].
  destruct (pair_same same_path o2 n2) as [[c o3] n3].
  repeat (apply Forall_app; split);
    apply Forall_forall; intros p Hp; apply in_map_iff in Hp;
    destruct Hp as [x [<- _]]; cbn; (left; discriminate) || (right; discriminate).
Qed.

(** C6: when the engine produces a report, the old records held by its
    deltas are the old snapshot up to order and no record is held twice,
    and so for the new records: every record is in one delta and in no
    other; the same holds of the pairs of the Matcher; and every delta
    holds a record. *)
Theorem every_record_in_one_delta (c : Config) (olds news : Snapshot) :
  duplicate_path olds = false ->
  duplicate_path news = false ->
  exists report,
    diff c olds news = inr report /\
    Permutation (olds_of report) olds /\
    Permutation (news_of report) news /\
    NoDup (olds_of report) /\
    NoDup (news_of report) /\
    Permutation (flat_map (fun p => side (pair_old p)) (matcher olds news))
      olds /\
    Permutation (flat_map (fun p => side (pair_new p)) (matcher olds news))
      news /\
    Forall (fun d => old d <> None \/ new d <> None) report.
Proof.
  intros Ho Hn. unfold diff. rewrite Ho, Hn. cbn [orb].
  eexists. split; [reflexivity|].
  destruct (matcher_covers olds news) as [Po Pn].
  assert (Pr : Permutation (rank (List.map (classify c) (matcher olds news)))
                 (List.map (classify c) (matcher olds news))).
  { apply isort_by_perm. }
  assert (Qo : Permutation
                 (olds_of (rank (List.map (classify c) (matcher olds news))))
                 olds).
  { unfold olds_of. rewrite (Permutation_flat_map _ Pr).
    fold (olds_of (List.map (classify c) (matcher olds news))).
    rewrite olds_of_classify. exact Po. }
  assert (Qn : Permutation
                 (news_of (rank (List.map (classify c) (matcher olds news))))
                 news).
  { unfold news_of. rewrite (Permutation_flat_map _ Pr).
    fold (news_of (List.map (classify c) (matcher olds news))).
    rewrite news_of_classify. exact Pn. }
  split; [exact Qo|]. split; [exact Qn|].
  split; [|split; [|split; [exact Po | split; [exact Pn|]]]].
  - eapply Permutation_NoDup; [symmetry; exact Qo|].
    apply duplicate_path_NoDup, Ho.
  - eapply Permutation_NoDup; [symmetry; exact Qn|].
    apply duplicate_path_NoDup, Hn.
  - eapply Permutation_Forall; [symmetry; exact Pr|].
    apply Forall_map.
    eapply Forall_impl; [|apply matcher_one_side].
    intros [[k o] n] H. exact H.
Qed.
End DiffEngineFacts.

Lemma every_record_in_one_delta_witness :
  exists report,
    DiffEngine.diff DiffEngine.default_config
      [DiffEngine.file ["a"; "b.txt"]%string 10 "X"]
      [DiffEngine.file ["a"; "c.txt"]%string 10 "X"] = inr report /\
    Permutation (DiffEngine.olds_of report)
      [DiffEngine.file ["a"; "b.txt"]%string 10 "X"] /\
    Permutation (DiffEngine.news_of report)
      [DiffEngine.file ["a"; "c.txt"]%string 10 "X"] /\
    NoDup (DiffEngine.olds_of report) /\
    NoDup (DiffEngine.news_of report) /\
    Permutation
      (flat_map (fun p => DiffEngine.side (DiffEngine.pair_old p))
         (DiffEngine.matcher
            [DiffEngine.file ["a"; "b.txt"]%string 10 "X"]
            [DiffEngine.file ["a"; "c.txt"]%string 10 "X"]))
      [DiffEngine.file ["a"; "b.txt"]%string 10 "X"] /\
    Permutation
      (flat_map (fun p => DiffEngine.side (DiffEngine.pair_new p))
         (DiffEngine.matcher
            [DiffEngine.file ["a"; "b.txt"]%string 10 "X"]
            [DiffEngine.file ["a"; "c.txt"]%string 10 "X"]))
      [DiffEngine.file ["a"; "c.txt"]%string 10 "X"] /\
    Forall (fun d => DiffEngine.old d <> None \/ DiffEngine.new d <> None)
      report.
Proof.
  apply (@DiffEngineFacts.every_record_in_one_delta
           DiffEngine.default_config
           [DiffEngine.file ["a"; "b.txt"]%string 10 "X"]
           [DiffEngine.file ["a"; "c.txt"]%string 10 "X"]);
    reflexivity.
Defined.

(* ------------------------------------------------------------------ *)
(** ** The harness and the engine on the example documents *)

Example splitlines_line_ends :
  splitlines (u "a" ++ [CR; LF] ++ u "b" ++ [CR] ++ u "c" ++ [LF]) =
  [u "a" ++ [CR; LF]; u "b" ++ [CR]; u "c" ++ [LF]].
Proof. reflexivity. Qed.

Example streamline_errors_traceback :
  streamline_errors traceback =
  (JList [JStr (u "Traceback:" ++ [LF] ++ u "IOError")], None).
Proof. reflexivity. Qed.

Example streamline_errors_not_a_string :
  streamline_errors (JList [JStr (u "a" ++ [LF] ++ u "b" ++ [LF] ++ u "c");
                            JInt 1;
                            JStr (u "d" ++ [LF] ++ u "e" ++ [LF] ++ u "f")]) =
  (JList [JStr (u "a" ++ [LF] ++ u "c");
          JInt 1;
          JStr (u "d" ++ [LF] ++ u "e" ++ [LF] ++ u "f")],
   Some AttributeError).
Proof. reflexivity. Qed.

Example load_scan_mixed :
  exists r,
    load_json_result_from_string py3_lt loads_example
      (dumps false scan_mixed) false = Ok r /\
    dict_keys (match r with JDict d => d | _ => [] end) =
      [k_errors; u "deltas_count"; k_deltas] /\
    List.map (fun d => (item k_score d, new_path d)) (deltas_of r) =
      [(JInt 30, JStr (u "a.c")); (JInt 20, JStr (u "c.c"));
       (JInt 20, JStr (u "b.c"))].
Proof. eexists. repeat split; vm_compute; reflexivity. Qed.

Example load_not_json :
  load_json_result_from_string py3_lt loads_example (u "{") false =
  Raise ValueError.
Proof. vm_compute. reflexivity. Qed.

Example check_json_scan_same_file :
  snd (check_json_scan py3_lt loads_example dumps write_binary_py3
         example_files
         "mixed.json" "mixed.json" false false false) = Ok tt.
Proof. vm_compute. reflexivity. Qed.

Example check_json_scan_other_file :
  snd (check_json_scan py3_lt loads_example dumps write_binary_py3
         example_files
         "mixed.json" "tied.json" false false false) = Raise AssertionError.
Proof. vm_compute. reflexivity. Qed.

Example check_json_scan_no_file :
  snd (check_json_scan py3_lt loads_example dumps write_binary_py3
         example_files
         "mixed.json" "none.json" false false false) = Raise IOError.
Proof. vm_compute. reflexivity. Qed.

Example diff_moved :
  exists d,
    DiffEngine.diff DiffEngine.default_config
      [DiffEngine.file ["a"; "b.txt"]%string 10 "X"]
      [DiffEngine.file ["a"; "c.txt"]%string 10 "X"] = inr [d] /\
    DiffEngine.kind d = DiffEngine.Moved /\
    DiffEngine.factors d =
      [("size_delta"%string, 0%N); ("path_delta"%string, 1%N);
       ("license_changed"%string, 0%N); ("copyright_changed"%string, 0%N)].
Proof. eexists. repeat split. Qed.

Example diff_modified :
  exists d,
    DiffEngine.diff DiffEngine.default_config
      [DiffEngine.file ["a.txt"]%string 10 "X"]
      [DiffEngine.file ["a.txt"]%string 20 "Y"] = inr [d] /\
    DiffEngine.kind d = DiffEngine.Modified /\
    DiffEngine.factors d =
      [("size_delta"%string, 10%N); ("path_delta"%string, 0%N);
       ("license_changed"%string, 0%N); ("copyright_changed"%string, 0%N)].
Proof. eexists. repeat split. Qed.

Example diff_duplicate_path :
  DiffEngine.diff DiffEngine.default_config
    [DiffEngine.file ["a.txt"]%string 10 "X";
     DiffEngine.file ["a.txt"]%string 20 "Y"] [] =
  inl DiffEngine.DuplicatePathError.
Proof. reflexivity. Qed.

(* ------------------------------------------------------------------ *)
(** ** More on [streamline_errors] *)

Lemma streamline_errors_loop_any (copy pre : list json) :
  streamline_errors_loop (List.length pre) copy (pre ++ copy) =
  (pre ++ List.map streamlined_entry (leading_strings copy)
       ++ skipn (List.length (leading_strings copy)) copy,
   if forallb is_str copy then None else Some AttributeError).
Proof.
  revert pre; induction copy as [|e rest IH]; intros pre.
  - simpl. reflexivity.
  - assert (Hlen : forall x : json,
              S (List.length pre) = List.length (pre ++ [x])).
    { intros x. rewrite length_app; simpl; lia. }
    assert (Happ : forall (x : json) post,
              pre ++ x :: post = (pre ++ [x]) ++ post).
    { intros x post. rewrite <- app_assoc; reflexivity. }
    destruct e; try (simpl; reflexivity).
    cbn [streamline_errors_loop leading_strings List.map List.length skipn
         forallb is_str andb streamlined_entry app].
    unfold streamlined at 1.
    destruct (cleaned_error s) as [c|].
    + rewrite list_set_middle.
      rewrite (Happ (JStr c) rest), (Hlen (JStr c)), IH.
      rewrite <- app_assoc. reflexivity.
    + rewrite (Happ (JStr s) rest), (Hlen (JStr s)), IH.
      rewrite <- app_assoc. reflexivity.
Qed.

Lemma leading_strings_all (errors : list json) :
  forallb is_str errors = true -> leading_strings errors = errors.
Proof.
  induction errors as [|e errors IH]; simpl; [reflexivity|].
  destruct e; simpl; try discriminate. intros H. rewrite IH by exact H.
  reflexivity.
Qed.

Lemma leading_strings_length (errors : list json) :
  List.length (leading_strings errors) <= List.length errors.
Proof.
  induction errors as [|e errors IH]; simpl; [lia|].
  destruct e; simpl; lia.
Qed.

(** X1: on any list, whatever its entries, [streamline_errors] keeps the
    length; it raises (an [AttributeError]) exactly when an entry is not
    a string; the strings before that entry are streamlined, and the
    entries from it on are left as they were. *)
Theorem streamline_errors_any_list (errors : list json) :
  exists errors',
    fst (streamline_errors (JList errors)) = JList errors' /\
    errors' =
      List.map streamlined_entry (leading_strings errors) ++
      skipn (List.length (leading_strings errors)) errors /\
    List.length errors' = List.length errors /\
    (snd (streamline_errors (JList errors)) = None <->
     forallb is_str errors = true) /\
    (snd (streamline_errors (JList errors)) = None \/
     snd (streamline_errors (JList errors)) = Some AttributeError).
Proof.
  unfold streamline_errors.
  change (streamline_errors_loop 0 errors errors)
    with (streamline_errors_loop (List.length (@nil json)) errors
            ([] ++ errors)).
  rewrite streamline_errors_loop_any. cbn [app fst snd].
  eexists. split; [reflexivity|]. split; [reflexivity|].
  split; [|split].
  - rewrite length_app, length_map, length_skipn.
    assert (H := leading_strings_length errors). lia.
  - destruct (forallb is_str errors); split; congruence.
  - destruct (forallb is_str errors); auto.
Qed.

Lemma last_length (l : list ustr) (d : ustr) :
  List.length (last l d) <= List.length d + List.length (List.concat l).
Proof.
  induction l as [|x l IH]; [simpl; lia|].
  destruct l as [|y l].
  - simpl. rewrite length_app. lia.
  - change (last (x :: y :: l) d) with (last (y :: l) d).
    change (List.concat (x :: y :: l)) with (x ++ List.concat (y :: l)).
    rewrite length_app. lia.
Qed.

Lemma hd_last_length (ls : list ustr) :
  2 <= List.length ls ->
  List.length (hd [] ls ++ last ls []) <= List.length (List.concat ls).
Proof.
  destruct ls as [|a [|b ls]]; simpl; try lia. intros _.
  assert (H := last_length (b :: ls) []).
  change (last (b :: ls) []) with
    (match ls with [] => b | _ :: _ => last ls [] end) in H.
  rewrite !length_app in *. simpl in H. rewrite length_app in H. lia.
Qed.

(** X2: an error is never longer after [streamline_errors] and has at
    most two lines; an error of at most two lines is left as it is. *)
Theorem streamlined_bounds (e : ustr) :
  List.length (streamlined e) <= List.length e /\
  List.length (splitlines (streamlined e)) <= 2 /\
  (List.length (splitlines e) <= 2 -> streamlined e = e).
Proof.
  unfold streamlined.
  destruct (cleaned_error e) as [c|] eqn:E.
  - apply cleaned_error_lines in E. destruct E as [Hlen ->].
    set (ls := splitlines e) in *.
    assert (Hne : ls <> [])
      by (destruct ls; [simpl in Hlen; lia | discriminate]).
    split; [|split].
    + assert (Hc := splitlines_concat e). fold ls in Hc.
      rewrite <- Hc. apply hd_last_length, Hlen.
    + assert (H1 := splitlines_line e _ (hd_In_lines Hne)).
      assert (H2 := splitlines_line e _ (last_In_lines Hne)).
      assert (H3 := splitlines_app_length (hd [] ls) (last ls [])).
      lia.
    + intros H2. assert (Hc := splitlines_concat e). fold ls in Hc.
      destruct ls as [|a [|b [|? ?]]]; simpl in *; try lia.
      rewrite app_nil_r in Hc. exact Hc.
  - split; [lia|]. split; [|reflexivity].
    unfold cleaned_error in E.
    destruct (Nat.leb (List.length (splitlines e)) 1) eqn:L; [|discriminate].
    apply Nat.leb_le in L. lia.
Qed.

(* ------------------------------------------------------------------ *)
(** ** More on ordered dictionaries and [streamline_headers] *)

Lemma dict_pop_absent (k : ustr) (d : dict) :
  dict_get k d = None -> dict_pop k d = d.
Proof.
  induction d as [|[k0 v] d IH]; [reflexivity|].
  unfold dict_pop in *. simpl.
  destruct (ustr_eqb k k0); [discriminate|].
  intros H. simpl. rewrite IH by exact H. reflexivity.
Qed.

Lemma dict_set_same (k : ustr) (v : json) (d : dict) :
  dict_get k d = Some v -> dict_set k v d = d.
Proof.
  induction d as [|[k0 w] d IH]; simpl; [discriminate|].
  destruct (ustr_eqb k k0).
  - intros E; inversion E; reflexivity.
  - intros H. rewrite IH by exact H. reflexivity.
Qed.

Lemma dict_set_set (k : ustr) (v1 v2 : json) (d : dict) :
  dict_set k v2 (dict_set k v1 d) = dict_set k v2 d.
Proof.
  induction d as [|[k0 w] d IH]; simpl.
  - rewrite ustr_eqb_refl. reflexivity.
  - destruct (ustr_eqb k k0) eqn:E; simpl; rewrite E; [reflexivity|].
    rewrite IH. reflexivity.
Qed.

Lemma streamline_errors_success (e : json) :
  snd (streamline_errors e) = None ->
  (exists s, e = JStr s /\ fst (streamline_errors e) = e) \/
  (exists ss, e = JList (List.map JStr ss) /\
     fst (streamline_errors e) =
       JList (List.map JStr (List.map streamlined ss))).
Proof.
  destruct e; try (simpl; discriminate).
  - intros _. left. exists s. split; reflexivity.
  - intros H. right.
    destruct (streamline_errors_any_list l) as [l' [_ [_ [_ [Hs _]]]]].
    apply Hs in H. destruct (all_strings _ H) as [ss ->].
    exists ss. split; [reflexivity|].
    rewrite streamline_errors_strings. reflexivity.
Qed.

Lemma streamline_errors_again (e : json) :
  snd (streamline_errors e) = None ->
  streamline_errors (fst (streamline_errors e)) =
  (fst (streamline_errors e), None).
Proof.
  intros H. destruct (streamline_errors_success e H)
    as [[s [-> E]] | [ss [-> E]]].
  - reflexivity.
  - rewrite E, streamline_errors_strings. cbn [fst]. do 2 f_equal.
    rewrite !map_map. apply map_ext. intros x.
    rewrite streamlined_idempotent. reflexivity.
Qed.

(** X3: a second [streamline_headers] changes nothing: when the call
    returns, calling it on the result returns the same mapping. *)
Theorem streamline_headers_idempotent (headers : json) :
  snd (streamline_headers headers) = None ->
  streamline_headers (fst (streamline_headers headers)) =
  (fst (streamline_headers headers), None).
Proof.
  destruct headers as [| | | | |d]; try (simpl; discriminate).
  unfold streamline_headers at 1 3 4.
  set (pd := dict_pop k_options (dict_pop k_version d)).
  destruct (dict_get k_errors pd) as [e|] eqn:He; [|simpl; discriminate].
  destruct (streamline_errors e) as [e' x] eqn:Se. cbn [fst snd].
  intros ->.
  assert (Sa := streamline_errors_again e). rewrite Se in Sa.
  specialize (Sa eq_refl). cbn [fst] in Sa.
  unfold streamline_headers.
  assert (Hv : dict_get k_version (dict_set k_errors e' pd) = None).
  { rewrite dict_get_set_ne by reflexivity. unfold pd.
    rewrite dict_get_pop_ne by reflexivity. apply dict_get_pop_eq. }
  assert (Ho : dict_get k_options (dict_set k_errors e' pd) = None).
  { rewrite dict_get_set_ne by reflexivity. apply dict_get_pop_eq. }
  rewrite (dict_pop_absent _ _ Hv), (dict_pop_absent _ _ Ho).
  rewrite dict_get_set_eq, Sa, dict_set_set. reflexivity.
Qed.

Lemma streamline_headers_idempotent_witness :
  streamline_headers
    (fst (streamline_headers (JDict (scan_entries traceback [])))) =
  (fst (streamline_headers (JDict (scan_entries traceback []))), None).
Proof.
  apply (@streamline_headers_idempotent (JDict (scan_entries traceback []))).
  reflexivity.
Defined.

(** X4: without a ['deltacode_errors'] entry [streamline_headers] raises
    a [KeyError], and the mapping has lost its ['deltacode_version'] and
    ['deltacode_options'] entries all the same; the other entries are
    left. *)
Theorem streamline_headers_missing_errors (d : dict) :
  dict_get k_errors d = None ->
  exists d',
    streamline_headers (JDict d) = (JDict d', Some KeyError) /\
    dict_get k_version d' = None /\
    dict_get k_options d' = None /\
    filter other_entry d' = filter other_entry d.
Proof.
  intros He. unfold streamline_headers.
  rewrite !dict_get_pop_ne, He by reflexivity.
  eexists. split; [reflexivity|]. split; [|split].
  - rewrite dict_get_pop_ne by reflexivity. apply dict_get_pop_eq.
  - apply dict_get_pop_eq.
  - rewrite !dict_pop_filter; [reflexivity | |];
      intros w; unfold other_entry; cbn [fst];
      rewrite ustr_eqb_refl; reflexivity.
Qed.

Lemma streamline_headers_missing_errors_witness :
  exists d',
    streamline_headers
      (JDict [(k_version, JStr (u "1.0.0")); (k_deltas, JList [])]) =
      (JDict d', Some KeyError) /\
    dict_get k_version d' = None /\
    dict_get k_options d' = None /\
    filter other_entry d' =
      filter other_entry [(k_version, JStr (u "1.0.0")); (k_deltas, JList [])].
Proof.
  apply (@streamline_headers_missing_errors
           [(k_version, JStr (u "1.0.0")); (k_deltas, JList [])]).
  reflexivity.
Defined.

(* ------------------------------------------------------------------ *)
(** ** What [load_json_result_from_string] needs and what it keeps *)

Lemma mapM_inv {A B} (f : A -> result B) (l : list A) (bs : list B) :
  mapM f l = Ok bs ->
  List.length bs = List.length l /\
  forall a, In a l -> exists b, f a = Ok b.
Proof.
  revert bs. induction l as [|a l IH]; intros bs; simpl.
  - intros E; inversion E. split; [reflexivity | intros a []].
  - destruct (f a) as [b|e] eqn:Fa; [|discriminate]. simpl.
    destruct (mapM f l) as [bs'|e]; [|discriminate]. simpl.
    intros E; inversion E; subst.
    destruct (IH bs' eq_refl) as [Hl Hf]. split; [simpl; lia|].
    intros x [<-|Hx]; [exists b; exact Fa | apply Hf, Hx].
Qed.

Lemma insert_inv {A} (lt : A -> A -> option bool) x l r :
  insert lt x l = Ok r -> Permutation r (x :: l).
Proof.
  revert r. induction l as [|y l IH]; intros r; simpl.
  - intros E; inversion E. reflexivity.
  - destruct (lt y x) as [[|]|]; [| |discriminate].
    + destruct (insert lt x l) as [r'|]; [|discriminate]. simpl.
      intros E; inversion E; subst.
      rewrite (IH r' eq_refl). apply perm_swap.
    + intros E; inversion E. reflexivity.
Qed.

Lemma stable_sort_inv {A} (lt : A -> A -> option bool) l r :
  stable_sort lt l = Ok r -> Permutation r l.
Proof.
  revert r. induction l as [|x l IH]; intros r; simpl.
  - intros E; inversion E. reflexivity.
  - destruct (stable_sort lt l) as [s|]; [|discriminate]. simpl.
    intros E. apply insert_inv in E. rewrite E.
    apply perm_skip, IH. reflexivity.
Qed.

Lemma map_snd_combine {A B} (ks : list A) (l : list B) :
  List.length ks = List.length l -> List.map snd (combine ks l) = l.
Proof.
  revert ks. induction l as [|b l IH]; intros [|k ks]; simpl;
    try reflexivity; try discriminate.
  intros E. rewrite IH by lia. reflexivity.
Qed.

Section LoadInversion.
Variable py_lt : json -> json -> option bool.

Lemma list_sort_inv key reverse l l' :
  list_sort py_lt key reverse l = Ok l' ->
  Permutation l' l /\ forall a, In a l -> exists v, key a = Ok v.
Proof.
  unfold list_sort.
  destruct (mapM key l) as [keys|] eqn:M; [|discriminate].
  apply mapM_inv in M. destruct M as [Hlen Hk]. cbn [bind].
  assert (G : forall s, Permutation s (combine keys l) ->
                        Permutation (List.map snd s) l).
  { intros s P. rewrite (Permutation_map snd P).
    rewrite map_snd_combine by exact Hlen. reflexivity. }
  destruct reverse.
  - destruct (stable_sort (lt_keys py_lt) (rev (combine keys l)))
      as [s|] eqn:S; [|discriminate].
    cbn [bind]. intros E; inversion E; subst. split; [|exact Hk].
    apply G. rewrite <- Permutation_rev.
    apply stable_sort_inv in S. rewrite S. symmetry. apply Permutation_rev.
  - destruct (stable_sort (lt_keys py_lt) (combine keys l))
      as [s|] eqn:S; [|discriminate].
    cbn [bind]. intros E; inversion E; subst. split; [|exact Hk].
    apply G. apply stable_sort_inv in S. exact S.
Qed.

Lemma sort_deltas_inv k reverse x y :
  sort_deltas py_lt k reverse x = Ok y ->
  exists d ds ds',
    x = JDict d /\ dict_get k_deltas d = Some (JList ds) /\
    Permutation ds' ds /\ forallb (has_item k) ds = true /\
    y = JDict (dict_set k_deltas (JList ds') d).
Proof.
  unfold sort_deltas.
  destruct x as [| | | | |d]; try discriminate.
  unfold getitem at 1.
  destruct (dict_get k_deltas d) as [v|] eqn:G; [|discriminate].
  cbn [bind]. destruct v as [| | | |ds|]; try discriminate.
  destruct (list_sort py_lt (getitem k) reverse ds) as [ds'|] eqn:L;
    [|discriminate].
  cbn [bind]. intros E; inversion E; subst.
  apply list_sort_inv in L. destruct L as [P Hk].
  exists d, ds, ds'. repeat split; try assumption.
  apply forallb_forall. intros a Ha. unfold has_item.
  destruct (Hk a Ha) as [v ->]. reflexivity.
Qed.

Lemma load_scan_results_inv scan_results r :
  load_scan_results py_lt scan_results = Ok r ->
  exists d e e' ds ds',
    scan_results = JDict d /\
    dict_get k_errors d = Some e /\
    streamline_errors e = (e', None) /\
    dict_get k_deltas d = Some (JList ds) /\
    Permutation ds' ds /\
    forallb (has_item k_factors) ds = true /\
    forallb (has_item k_score) ds = true /\
    r = JDict (dict_set k_deltas (JList ds')
                 (dict_set k_errors e'
                    (dict_pop k_options (dict_pop k_version d)))).
Proof.
  unfold load_scan_results.
  destruct scan_results as [| | | | |d]; try (simpl; discriminate).
  unfold streamline_headers.
  set (pd := dict_pop k_options (dict_pop k_version d)).
  destruct (dict_get k_errors pd) as [e|] eqn:He; [|discriminate].
  destruct (streamline_errors e) as [e' [x|]] eqn:Se; [discriminate|].
  destruct (sort_deltas py_lt k_factors false
              (JDict (dict_set k_errors e' pd))) as [y|] eqn:S1;
    [|discriminate].
  cbn [bind]. intros S2.
  apply sort_deltas_inv in S1. destruct S1 as [d1 [ds [ds1 [E1 [G1 [P1 [F1 ->]]]]]]].
  inversion E1; subst d1.
  apply sort_deltas_inv in S2. destruct S2 as [d2 [ds2 [ds' [E2 [G2 [P2 [F2 ->]]]]]]].
  inversion E2; subst d2.
  rewrite dict_get_set_eq in G2. inversion G2; subst ds2.
  exists d, e, e', ds, ds'.
  split; [reflexivity|].
  split; [unfold pd in He; rewrite !dict_get_pop_ne in He by reflexivity;
          exact He|].
  split; [exact Se|].
  split; [unfold pd in G1; rewrite dict_get_set_ne, !dict_get_pop_ne in G1
            by reflexivity; exact G1|].
  split; [rewrite P2; exact P1|].
  split; [exact F1|].
  split; [eapply forallb_perm; [exact P1 | exact F2]|].
  rewrite dict_set_set. reflexivity.
Qed.
End LoadInversion.

(** X5: when [load_json_result_from_string] returns, the string was a
    JSON mapping with a ['deltacode_errors'] entry that
    [streamline_errors] accepts and with a ['deltas'] list, every delta
    of which has ['factors'] and ['score']. *)
Theorem load_json_result_from_string_needs
    (py_lt : json -> json -> option bool) (json_loads : ustr -> option json)
    (string : ustr) (remove_file_date : bool) (r : json) :
  load_json_result_from_string py_lt json_loads string remove_file_date
    = Ok r ->
  exists d e ds,
    json_loads string = Some (JDict d) /\
    dict_get k_errors d = Some e /\
    snd (streamline_errors e) = None /\
    dict_get k_deltas d = Some (JList ds) /\
    forallb (has_item k_factors) ds = true /\
    forallb (has_item k_score) ds = true.
Proof.
  unfold load_json_result_from_string.
  destruct (json_loads string) as [sr|]; [|discriminate].
  intros H. apply load_scan_results_inv in H.
  destruct H as [d [e [e' [ds [ds' [-> [He [Se [Hd [_ [Hf [Hs _]]]]]]]]]]]].
  exists d, e, ds. rewrite Se. repeat split; assumption.
Qed.

Lemma load_json_result_from_string_needs_witness :
  exists d e ds,
    loads_example (dumps false scan_mixed) = Some (JDict d) /\
    dict_get k_errors d = Some e /\
    snd (streamline_errors e) = None /\
    dict_get k_deltas d = Some (JList ds) /\
    forallb (has_item k_factors) ds = true /\
    forallb (has_item k_score) ds = true.
Proof.
  apply (@load_json_result_from_string_needs py3_lt loads_example
           (dumps false scan_mixed) false scan_mixed_loaded).
  vm_compute. reflexivity.
Defined.

(** X6: what [load_json_result_from_string] returns has the keys of the
    mapping it decoded, in their order, without ['deltacode_version'] and
    ['deltacode_options']; its deltas are the decoded deltas in some
    order, none lost and none added; and every entry other than the
    errors and the deltas is as it was decoded, whatever
    [remove_file_date] says. *)
Theorem load_json_result_from_string_keeps
    (py_lt : json -> json -> option bool) (json_loads : ustr -> option json)
    (string : ustr) (remove_file_date : bool) (r : json) :
  load_json_result_from_string py_lt json_loads string remove_file_date
    = Ok r ->
  exists d d',
    json_loads string = Some (JDict d) /\
    r = JDict d' /\
    dict_keys d' =
      filter (fun k => negb (ustr_eqb k_version k) &&
                       negb (ustr_eqb k_options k)) (dict_keys d) /\
    Permutation (deltas_of r) (deltas_of (JDict d)) /\
    filter kept_entry d' = filter kept_entry d.
Proof.
  unfold load_json_result_from_string.
  destruct (json_loads string) as [sr|]; [|discriminate].
  intros H. apply load_scan_results_inv in H.
  destruct H as [d [e [e' [ds [ds' [-> [He [Se [Hd [P [_ [_ ->]]]]]]]]]]]].
  set (pd := dict_pop k_options (dict_pop k_version d)).
  assert (He2 : dict_get k_errors pd = Some e).
  { unfold pd. rewrite !dict_get_pop_ne by reflexivity. exact He. }
  assert (Hd2 : dict_get k_deltas (dict_set k_errors e' pd)
                = Some (JList ds)).
  { unfold pd. rewrite dict_get_set_ne, !dict_get_pop_ne by reflexivity.
    exact Hd. }
  exists d. eexists. split; [reflexivity|]. split; [reflexivity|].
  split; [|split].
  - rewrite (dict_keys_set _ _ _ Hd2), (dict_keys_set _ _ _ He2).
    unfold pd. rewrite !dict_keys_pop. apply filter_filter_andb.
  - unfold deltas_of, item, getitem.
    rewrite dict_get_set_eq, Hd. exact P.
  - assert (K : forall k, (ustr_eqb k_version k = true \/
                           ustr_eqb k_options k = true \/
                           ustr_eqb k_errors k = true \/
                           ustr_eqb k_deltas k = true) ->
                forall w, kept_entry (k, w) = false).
    { intros k Hk w. unfold kept_entry, other_entry. cbn [fst].
      destruct Hk as [-> | [-> | [-> | ->]]]; simpl;
        rewrite ?andb_false_r; reflexivity. }
    rewrite (dict_set_filter k_deltas _ kept_entry _ (v0 := JList ds));
      [| apply K; rewrite ustr_eqb_refl; auto | exact Hd2].
    rewrite (dict_set_filter k_errors _ kept_entry _ (v0 := e));
      [| apply K; rewrite ustr_eqb_refl; auto | exact He2].
    unfold pd. rewrite !dict_pop_filter; [reflexivity | |];
      apply K; rewrite ustr_eqb_refl; auto.
Qed.

Lemma load_json_result_from_string_keeps_witness :
  exists d d',
    loads_example (dumps false scan_mixed) = Some (JDict d) /\
    scan_mixed_loaded = JDict d' /\
    dict_keys d' =
      filter (fun k => negb (ustr_eqb k_version k) &&
                       negb (ustr_eqb k_options k)) (dict_keys d) /\
    Permutation (deltas_of scan_mixed_loaded) (deltas_of (JDict d)) /\
    filter kept_entry d' = filter kept_entry d.
Proof.
  apply (@load_json_result_from_string_keeps py3_lt loads_example
           (dumps false scan_mixed) false scan_mixed_loaded).
  vm_compute. reflexivity.
Defined.

(* ------------------------------------------------------------------ *)
(** ** Loading twice *)

Lemma weakly_ordered_intro lt ks :
  comparable lt ks = true ->
  (forall x y, In x ks -> In y ks ->
     ltb_of lt x y = true -> ltb_of lt y x = false) ->
  (forall x y z, In x ks -> In y ks -> In z ks ->
     ltb_of lt x z = true -> ltb_of lt x y = true \/ ltb_of lt y z = true) ->
  weakly_ordered lt ks = true.
Proof.
  intros Hc Ha Hn. unfold weakly_ordered. rewrite Hc. cbn [andb].
  apply forallb_forall; intros x Hx. apply forallb_forall; intros y Hy.
  apply andb_true_iff; split.
  - destruct (ltb_of lt x y) eqn:E; [|reflexivity].
    rewrite (Ha x y Hx Hy E). reflexivity.
  - apply forallb_forall; intros z Hz.
    destruct (ltb_of lt x z) eqn:E; [|reflexivity].
    destruct (Hn x y z Hx Hy Hz E) as [-> | ->]; simpl;
      rewrite ?orb_true_r; reflexivity.
Qed.

Lemma weakly_ordered_perm lt ks ks' :
  Permutation ks ks' ->
  weakly_ordered lt ks = true -> weakly_ordered lt ks' = true.
Proof.
  intros P H.
  assert (I : forall x, In x ks' -> In x ks).
  { intros x Hx. eapply Permutation_in; [symmetry; exact P | exact Hx]. }
  apply weakly_ordered_intro.
  - eapply comparable_perm; [exact P|].
    apply weakly_ordered_comparable, H.
  - intros x y Hx Hy. apply (weakly_ordered_asym _ _ H); auto.
  - intros x y z Hx Hy Hz. apply (weakly_ordered_ntrans _ _ H); auto.
Qed.

Lemma forallb_is_str (ss : list ustr) :
  forallb is_str (List.map JStr ss) = true.
Proof. induction ss as [|x ss IH]; simpl; [reflexivity | exact IH]. Qed.

Section LoadTwice.
Variable py_lt : json -> json -> option bool.

Lemma sorted_deltas_again (ds : list json) :
  weakly_ordered py_lt (List.map (item k_score) ds) = true ->
  weakly_ordered py_lt (List.map (item k_factors) ds) = true ->
  sorted_deltas py_lt (sorted_deltas py_lt ds) = sorted_deltas py_lt ds.
Proof.
  intros Hs Hf. symmetry.
  assert (P : Permutation ds (sorted_deltas py_lt ds)).
  { symmetry. apply sorted_deltas_perm. }
  apply sorted_deltas_unique.
  - eapply weakly_ordered_perm; [apply Permutation_map; exact P | exact Hs].
  - eapply weakly_ordered_perm; [apply Permutation_map; exact P | exact Hf].
  - apply Forall_forall. intros a Ha. exact Ha.
  - apply sorted_deltas_sorted; assumption.
  - intros a _. reflexivity.
Qed.

Lemma load_scan_results_value (d : dict) (ss : list ustr) (ds : list json) :
  well_formed py_lt (JDict d) = true ->
  dict_get k_errors d = Some (JList (List.map JStr ss)) ->
  dict_get k_deltas d = Some (JList ds) ->
  load_scan_results py_lt (JDict d) = Ok (JDict (loaded py_lt d ss ds)).
Proof.
  intros Hw He Hd.
  destruct (load_scan_results_returns py_lt (JDict d) Hw) as [r [Hr Hs]].
  rewrite Hr. f_equal.
  apply load_scan_results_inv in Hr.
  destruct Hr as [d0 [e [e' [ds0 [ds' [E [He0 [Se [Hd0 [_ [_ [_ ->]]]]]]]]]]]].
  inversion E; subst d0.
  rewrite He in He0. inversion He0; subst e.
  rewrite Hd in Hd0. inversion Hd0; subst ds0.
  rewrite streamline_errors_strings in Se. inversion Se; subst e'.
  unfold deltas_of, item, getitem in Hs.
  rewrite dict_get_set_eq, Hd in Hs. subst ds'. reflexivity.
Qed.

Lemma loaded_well_formed (d : dict) (ss : list ustr) (ds : list json) :
  well_formed py_lt (JDict d) = true ->
  dict_get k_errors d = Some (JList (List.map JStr ss)) ->
  dict_get k_deltas d = Some (JList ds) ->
  well_formed py_lt (JDict (loaded py_lt d ss ds)) = true.
Proof.
  intros Hw He Hd. unfold well_formed in *. rewrite He, Hd in Hw.
  repeat (apply andb_true_iff in Hw; destruct Hw as [Hw ?H]).
  unfold loaded.
  rewrite dict_get_set_ne, dict_get_set_eq, dict_get_set_eq by reflexivity.
  assert (P : Permutation ds (sorted_deltas py_lt ds)).
  { symmetry. apply sorted_deltas_perm. }
  rewrite forallb_is_str.
  rewrite (forallb_perm _ P H2), (forallb_perm _ P H1).
  rewrite (comparable_perm _ (Permutation_map _ P) H0).
  rewrite (comparable_perm _ (Permutation_map _ P) H).
  reflexivity.
Qed.

Lemma loaded_again (d : dict) (ss : list ustr) (ds : list json) :
  dict_get k_errors d = Some (JList (List.map JStr ss)) ->
  dict_get k_deltas d = Some (JList ds) ->
  weakly_ordered py_lt (List.map (item k_score) ds) = true ->
  weakly_ordered py_lt (List.map (item k_factors) ds) = true ->
  loaded py_lt (loaded py_lt d ss ds) (List.map streamlined ss)
    (sorted_deltas py_lt ds) =
  loaded py_lt d ss ds.
Proof.
  intros He Hd Hs Hf.
  set (L := loaded py_lt d ss ds).
  assert (Hv : dict_get k_version L = None).
  { unfold L, loaded. rewrite !dict_get_set_ne by reflexivity.
    rewrite dict_get_pop_ne by reflexivity. apply dict_get_pop_eq. }
  assert (Ho : dict_get k_options L = None).
  { unfold L, loaded. rewrite !dict_get_set_ne by reflexivity.
    apply dict_get_pop_eq. }
  assert (HeL : dict_get k_errors L =
                Some (JList (List.map JStr (List.map streamlined ss)))).
  { unfold L, loaded. rewrite dict_get_set_ne by reflexivity.
    apply dict_get_set_eq. }
  assert (HdL : dict_get k_deltas L = Some (JList (sorted_deltas py_lt ds))).
  { unfold L, loaded. apply dict_get_set_eq. }
  unfold loaded at 1.
  rewrite (@dict_pop_absent k_version L Hv), (@dict_pop_absent k_options L Ho).
  replace (List.map streamlined (List.map streamlined ss))
    with (List.map streamlined ss).
  2:{ rewrite map_map. apply map_ext. intros x.
      rewrite streamlined_idempotent. reflexivity. }
  rewrite (@dict_set_same k_errors _ L HeL).
  rewrite (@sorted_deltas_again ds Hs Hf).
  apply dict_set_same, HdL.
Qed.

(** Loading what has been loaded returns it as it is. *)
Lemma load_scan_results_again scan_results r :
  well_ordered py_lt scan_results = true ->
  load_scan_results py_lt scan_results = Ok r ->
  load_scan_results py_lt r = Ok r.
Proof.
  intros Hw Hr. apply well_ordered_parts in Hw. destruct Hw as [Hw [Hs Hf]].
  assert (Hw' := Hw). unfold well_formed in Hw'.
  destruct scan_results as [| | | | |d]; try discriminate.
  destruct (dict_get k_errors d) as [[| | | |es|]|] eqn:He; try discriminate.
  destruct (dict_get k_deltas d) as [[| | | |ds|]|] eqn:Hd; try discriminate.
  assert (Hstr : forallb is_str es = true).
  { repeat (apply andb_true_iff in Hw'; destruct Hw' as [Hw' _]). exact Hw'. }
  destruct (all_strings _ Hstr) as [ss ->].
  assert (Eds : deltas_of (JDict d) = ds).
  { unfold deltas_of, item, getitem. rewrite Hd. reflexivity. }
  rewrite Eds in Hs, Hf.
  rewrite (@load_scan_results_value d ss ds Hw He Hd) in Hr.
  inversion Hr; subst r.
  rewrite (@load_scan_results_value (loaded py_lt d ss ds)
             (List.map streamlined ss) (sorted_deltas py_lt ds)).
  - rewrite (@loaded_again d ss ds He Hd Hs Hf). reflexivity.
  - apply loaded_well_formed; assumption.
  - unfold loaded. rewrite dict_get_set_ne by reflexivity.
    apply dict_get_set_eq.
  - unfold loaded. apply dict_get_set_eq.
Qed.
End LoadTwice.

(** C1: the deltas that [load_json_result_from_string] returns are the
    decoded deltas, none lost and none added, sorted by factors then
    score: no delta has a smaller score than a later one, and of two
    deltas with tied scores the earlier one does not have the larger
    factors. *)
Theorem deltas_sorted_by_score_then_factors
    (py_lt : json -> json -> option bool) (json_loads : ustr -> option json)
    (string : ustr) (remove_file_date : bool) (scan_results : json) :
  json_loads string = Some scan_results ->
  well_ordered py_lt scan_results = true ->
  exists r ds ds',
    load_json_result_from_string py_lt json_loads string remove_file_date
      = Ok r /\
    getitem k_deltas scan_results = Ok (JList ds) /\
    getitem k_deltas r = Ok (JList ds') /\
    Permutation ds' ds /\
    StronglySorted
      (fun a b =>
         lt_score py_lt a b = false /\
         (lt_score py_lt b a = false -> lt_factors py_lt b a = false))
      ds'.
Proof.
  intros Hl Hw. apply well_ordered_parts in Hw. destruct Hw as [Hw [Hs Hf]].
  assert (Hw' := Hw). unfold well_formed in Hw'.
  destruct scan_results as [| | | | |d]; try discriminate.
  destruct (dict_get k_errors d) as [[| | | |es|]|] eqn:He; try discriminate.
  destruct (dict_get k_deltas d) as [[| | | |ds|]|] eqn:Hd; try discriminate.
  assert (Hstr : forallb is_str es = true).
  { repeat (apply andb_true_iff in Hw'; destruct Hw' as [Hw' _]). exact Hw'. }
  destruct (all_strings _ Hstr) as [ss ->].
  assert (Eds : deltas_of (JDict d) = ds).
  { unfold deltas_of, item, getitem. rewrite Hd. reflexivity. }
  rewrite Eds in Hs, Hf.
  exists (JDict (loaded py_lt d ss ds)), ds, (sorted_deltas py_lt ds).
  split.
  { unfold load_json_result_from_string. rewrite Hl.
    apply load_scan_results_value; assumption. }
  split; [unfold getitem; rewrite Hd; reflexivity|].
  split; [unfold getitem, loaded; rewrite dict_get_set_eq; reflexivity|].
  split; [apply sorted_deltas_perm|].
  eapply StronglySorted_weaken; [|apply sorted_deltas_sorted; assumption].
  cbv beta. intros a b H.
  unfold before_by_score_factors, lex, tied, gt_score, gtb_of in H.
  destruct (lt_score py_lt a b), (lt_score py_lt b a),
    (lt_factors py_lt b a); simpl in H; try discriminate; auto.
Qed.

Lemma deltas_sorted_by_score_then_factors_witness :
  exists r ds ds',
    load_json_result_from_string py3_lt loads_example
      (dumps false scan_mixed) false = Ok r /\
    getitem k_deltas scan_mixed = Ok (JList ds) /\
    getitem k_deltas r = Ok (JList ds') /\
    Permutation ds' ds /\
    StronglySorted
      (fun a b =>
         lt_score py3_lt a b = false /\
         (lt_score py3_lt b a = false -> lt_factors py3_lt b a = false))
      ds'.
Proof.
  apply (@deltas_sorted_by_score_then_factors py3_lt loads_example
           (dumps false scan_mixed) false scan_mixed);
    vm_compute; reflexivity.
Defined.

(* ------------------------------------------------------------------ *)
(** ** Two runs, and runtimes that sort differently *)

Section AnySortFacts.
Variable py_lt : json -> json -> option bool.

Lemma sort_order_asym k reverse l :
  weakly_ordered py_lt (List.map (item k) l) = true ->
  forall x y, In x l -> In y l ->
    sort_order py_lt k reverse x y = true ->
    sort_order py_lt k reverse y x = false.
Proof.
  intros H x y Hx Hy. unfold sort_order. destruct reverse;
    apply (weakly_ordered_asym _ _ H); apply in_map; assumption.
Qed.

Lemma sort_order_ntrans k reverse l :
  weakly_ordered py_lt (List.map (item k) l) = true ->
  forall x y z, In x l -> In y l -> In z l ->
    sort_order py_lt k reverse x z = true ->
    sort_order py_lt k reverse x y = true \/
    sort_order py_lt k reverse y z = true.
Proof.
  intros H x y z Hx Hy Hz. unfold sort_order. destruct reverse.
  - intros L.
    destruct (weakly_ordered_ntrans _ _ H (item k z) (item k y) (item k x))
      as [G|G]; auto using in_map.
  - apply (weakly_ordered_ntrans _ _ H); apply in_map; assumption.
Qed.

Lemma list_sort_sorts k reverse l :
  forallb (has_item k) l = true ->
  weakly_ordered py_lt (List.map (item k) l) = true ->
  list_sort py_lt (getitem k) reverse l =
  Ok (isort_by (sort_order py_lt k reverse) l).
Proof.
  intros Hk Hw.
  rewrite list_sort_returns
    by (try assumption; apply weakly_ordered_comparable, Hw).
  cbv zeta. destruct reverse; [|reflexivity].
  rewrite (reverse_sort
             (fun a b => ltb_of py_lt (item k a) (item k b))
             (D := fun a => In a l)
             (sort_order_asym k false l Hw)
             (sort_order_ntrans k false l Hw)).
  - reflexivity.
  - apply Forall_forall. intros a Ha. exact Ha.
Qed.

Lemma list_sort_converse_sorts k reverse l :
  forallb (has_item k) l = true ->
  weakly_ordered py_lt (List.map (item k) l) = true ->
  list_sort_converse py_lt (getitem k) reverse l =
  Ok (isort_by (sort_order py_lt k reverse) l).
Proof.
  intros Hk Hw. unfold list_sort_converse.
  rewrite (mapM_returns (getitem k) (item k)).
  2:{ intros a Ha. apply getitem_item.
      rewrite forallb_forall in Hk. apply Hk, Ha. }
  cbn [bind]. rewrite combine_map_self.
  set (dec := fun a : json => (item k a, a)).
  assert (Hc := weakly_ordered_comparable _ _ Hw).
  assert (Hcmp : forall x y, In x (List.map dec l) -> In y (List.map dec l) ->
                   lt_keys py_lt x y <> None).
  { intros x y Hx Hy. apply in_map_iff in Hx, Hy.
    destruct Hx as [a [<- Ha]], Hy as [b [<- Hb]].
    unfold lt_keys, dec; cbn [fst].
    eapply comparable_spec; [exact Hc | |]; apply in_map; assumption. }
  assert (Hsnd : forall l', List.map snd (List.map dec l') = l').
  { intros l'. rewrite map_map. unfold dec; cbn [snd]. apply map_id. }
  destruct reverse.
  - rewrite stable_sort_returns by (intros x y Hx Hy; apply Hcmp; assumption).
    cbn [bind].
    rewrite (isort_by_map dec
               (ltb_of (fun p q => lt_keys py_lt q p))).
    rewrite Hsnd. reflexivity.
  - rewrite stable_sort_returns by exact Hcmp.
    cbn [bind].
    rewrite (isort_by_map dec (ltb_of (lt_keys py_lt))).
    rewrite Hsnd. reflexivity.
Qed.

Lemma sorts_contract sort :
  (forall k reverse l,
     forallb (has_item k) l = true ->
     weakly_ordered py_lt (List.map (item k) l) = true ->
     sort (getitem k) reverse l =
     Ok (isort_by (sort_order py_lt k reverse) l)) ->
  sort_contract py_lt sort.
Proof.
  intros E k reverse l Hk Hw.
  exists (isort_by (sort_order py_lt k reverse) l).
  assert (HD : Forall (fun a => In a l) l)
    by (apply Forall_forall; intros a Ha; exact Ha).
  split; [apply E; assumption|].
  split; [apply isort_by_perm|].
  split.
  - apply (isort_by_sorted _ (sort_order_asym k reverse l Hw)
             (sort_order_ntrans k reverse l Hw) HD).
  - intros a Ha.
    apply (isort_by_stable _ (sort_order_ntrans k reverse l Hw) a Ha HD).
Qed.

Lemma list_sort_contract : sort_contract py_lt (list_sort py_lt).
Proof. apply sorts_contract, list_sort_sorts. Qed.

Lemma list_sort_converse_contract :
  sort_contract py_lt (list_sort_converse py_lt).
Proof. apply sorts_contract, list_sort_converse_sorts. Qed.

(** A [list.sort] that keeps the contract returns what the insertion
    sort returns: the contract leaves no choice. *)
Lemma contract_sorts sort k reverse l :
  sort_contract py_lt sort ->
  forallb (has_item k) l = true ->
  weakly_ordered py_lt (List.map (item k) l) = true ->
  sort (getitem k) reverse l = Ok (isort_by (sort_order py_lt k reverse) l).
Proof.
  intros C Hk Hw. destruct (C k reverse l Hk Hw) as [l' [-> [P [S F]]]].
  f_equal.
  assert (HD : Forall (fun a => In a l) l)
    by (apply Forall_forall; intros a Ha; exact Ha).
  apply (stable_sorted_unique (D := fun a => In a l)
           (sort_order_asym k reverse l Hw)).
  - eapply Permutation_Forall; [symmetry; exact P | exact HD].
  - apply isort_by_Forall, HD.
  - exact S.
  - apply (isort_by_sorted _ (sort_order_asym k reverse l Hw)
             (sort_order_ntrans k reverse l Hw) HD).
  - intros a Ha. rewrite (F a Ha). symmetry.
    apply (isort_by_stable _ (sort_order_ntrans k reverse l Hw) a Ha HD).
Qed.

Lemma load_scan_results_with_contract sort1 sort2 scan_results :
  sort_contract py_lt sort1 -> sort_contract py_lt sort2 ->
  well_ordered py_lt scan_results = true ->
  load_scan_results_with sort1 scan_results =
  load_scan_results_with sort2 scan_results.
Proof.
  intros C1 C2 Hw. apply well_ordered_parts in Hw.
  destruct Hw as [Hw [Hs Hf]].
  unfold well_formed in Hw.
  destruct scan_results as [| | | | |d]; try discriminate.
  destruct (dict_get k_errors d) as [[| | | |es|]|] eqn:He; try discriminate.
  destruct (dict_get k_deltas d) as [[| | | |ds|]|] eqn:Hd; try discriminate.
  repeat (apply andb_true_iff in Hw; destruct Hw as [Hw ?Hw]).
  destruct (all_strings _ Hw) as [ss ->].
  assert (Eds : deltas_of (JDict d) = ds).
  { unfold deltas_of, item, getitem. rewrite Hd. reflexivity. }
  rewrite Eds in Hs, Hf.
  unfold load_scan_results_with, streamline_headers.
  rewrite !dict_get_pop_ne, He by reflexivity.
  rewrite streamline_errors_strings.
  set (d1 := dict_set k_errors _ _).
  assert (Hd1 : dict_get k_deltas d1 = Some (JList ds)).
  { unfold d1. rewrite dict_get_set_ne, !dict_get_pop_ne by reflexivity.
    exact Hd. }
  set (ds1 := isort_by (sort_order py_lt k_factors false) ds).
  assert (P1 : Permutation ds ds1) by (symmetry; apply isort_by_perm).
  assert (S1 : forall sort, sort_contract py_lt sort ->
             sort_deltas_with sort k_factors false (JDict d1) =
             Ok (JDict (dict_set k_deltas (JList ds1) d1))).
  { intros sort C. unfold sort_deltas_with.
    replace (getitem k_deltas (JDict d1)) with (Ok (JList ds))
      by (unfold getitem; rewrite Hd1; reflexivity).
    cbn [bind].
    rewrite (@contract_sorts sort k_factors false ds C Hw3 Hf).
    reflexivity. }
  assert (S2 : forall sort, sort_contract py_lt sort ->
             sort_deltas_with sort k_score true
               (JDict (dict_set k_deltas (JList ds1) d1)) =
             Ok (JDict (dict_set k_deltas
                          (JList (isort_by (sort_order py_lt k_score true)
                                    ds1))
                          (dict_set k_deltas (JList ds1) d1)))).
  { intros sort C. unfold sort_deltas_with.
    replace (getitem k_deltas (JDict (dict_set k_deltas (JList ds1) d1)))
      with (Ok (JList ds1))
      by (unfold getitem; rewrite dict_get_set_eq; reflexivity).
    cbn [bind]. rewrite (@contract_sorts sort k_score true ds1 C).
    - reflexivity.
    - eapply forallb_perm; [exact P1 | assumption].
    - eapply weakly_ordered_perm; [apply Permutation_map; exact P1 | exact Hs]. }
  rewrite (S1 sort1 C1), (S1 sort2 C2). cbn [bind].
  rewrite (S2 sort1 C1), (S2 sort2 C2). reflexivity.
Qed.
End AnySortFacts.

(** C4: two runs of [load_json_result_from_string] on the same string,
    with the same flag, return the same scan results, the order of the
    deltas included; and on well-ordered scan results the runs return
    the same however the runtime sorts: with one [list.sort] and with
    another, both keeping the contract of a stable sort, the result is
    the one of the embedding. *)
Theorem load_json_result_from_string_deterministic
    (py_lt : json -> json -> option bool) (json_loads : ustr -> option json)
    (sort1 sort2 :
       (json -> result json) -> bool -> list json -> result (list json))
    (string1 string2 : ustr) (flag1 flag2 : bool) :
  sort_contract py_lt sort1 ->
  sort_contract py_lt sort2 ->
  string1 = string2 -> flag1 = flag2 ->
  load_json_result_from_string py_lt json_loads string1 flag1 =
  load_json_result_from_string py_lt json_loads string2 flag2 /\
  forall scan_results,
    json_loads string1 = Some scan_results ->
    well_ordered py_lt scan_results = true ->
    load_json_result_from_string_with sort1 json_loads string1 flag1 =
    load_json_result_from_string_with sort2 json_loads string2 flag2 /\
    load_json_result_from_string_with sort1 json_loads string1 flag1 =
    load_json_result_from_string py_lt json_loads string1 flag1.
Proof.
  intros C1 C2 <- <-. split; [reflexivity|].
  intros scan_results Hl Hw.
  unfold load_json_result_from_string_with, load_json_result_from_string.
  rewrite Hl. split.
  - apply (@load_scan_results_with_contract py_lt sort1 sort2 scan_results
             C1 C2 Hw).
  - apply (@load_scan_results_with_contract py_lt sort1 (list_sort py_lt)
             scan_results C1 (list_sort_contract py_lt) Hw).
Qed.

Lemma load_json_result_from_string_deterministic_witness :
  load_json_result_from_string py3_lt loads_example
    (dumps false scan_mixed) false =
  load_json_result_from_string py3_lt loads_example
    (dumps false scan_mixed) false /\
  forall scan_results,
    loads_example (dumps false scan_mixed) = Some scan_results ->
    well_ordered py3_lt scan_results = true ->
    load_json_result_from_string_with (list_sort py3_lt) loads_example
      (dumps false scan_mixed) false =
    load_json_result_from_string_with (list_sort_converse py3_lt)
      loads_example (dumps false scan_mixed) false /\
    load_json_result_from_string_with (list_sort py3_lt) loads_example
      (dumps false scan_mixed) false =
    load_json_result_from_string py3_lt loads_example
      (dumps false scan_mixed) false.
Proof.
  apply (@load_json_result_from_string_deterministic py3_lt loads_example
           (list_sort py3_lt) (list_sort_converse py3_lt)
           (dumps false scan_mixed) (dumps false scan_mixed) false false).
  - apply list_sort_contract.
  - apply list_sort_converse_contract.
  - reflexivity.
  - reflexivity.
Defined.

(** X7: [load_json_result_from_string] is idempotent on well-ordered scan
    results: a string that decodes to scan results already loaded loads
    to these very scan results. *)
Theorem load_json_result_from_string_idempotent
    (py_lt : json -> json -> option bool) (json_loads : ustr -> option json)
    (string string' : ustr) (remove_file_date : bool)
    (scan_results r : json) :
  json_loads string = Some scan_results ->
  well_ordered py_lt scan_results = true ->
  load_json_result_from_string py_lt json_loads string remove_file_date
    = Ok r ->
  json_loads string' = Some r ->
  load_json_result_from_string py_lt json_loads string' remove_file_date
    = Ok r.
Proof.
  unfold load_json_result_from_string. intros -> Hw Hr ->.
  apply (@load_scan_results_again py_lt scan_results r Hw Hr).
Qed.

Lemma load_json_result_from_string_idempotent_witness :
  load_json_result_from_string py3_lt loads_regen
    (dumps false scan_mixed_loaded) false = Ok scan_mixed_loaded.
Proof.
  apply (@load_json_result_from_string_idempotent py3_lt loads_regen
           (dumps false scan_mixed) (dumps false scan_mixed_loaded) false
           scan_mixed scan_mixed_loaded);
    vm_compute; reflexivity.
Defined.

(* ------------------------------------------------------------------ *)
(** ** [check_json_scan] with [regen], and on one file *)

Lemma load_scan_results_mapping py_lt scan_results r :
  load_scan_results py_lt scan_results = Ok r -> exists d, r = JDict d.
Proof.
  intros H. apply load_scan_results_inv in H.
  destruct H as [d [e [e' [ds [ds' [_ [_ [_ [_ [_ [_ [_ ->]]]]]]]]]]]].
  eexists. reflexivity.
Qed.

(** X8: with [regen], once the result file has loaded: where writing
    text to a binary file raises, as on Python 3, the expected file is
    left empty and the check raises [TypeError]; where the text is
    written and [json.loads] reads the results back from it, the check
    passes on well-ordered results, and so does a check without [regen]
    afterwards. *)
Theorem check_json_scan_regen
    (py_lt : json -> json -> option bool) (json_loads : ustr -> option json)
    (json_dumps : bool -> json -> ustr)
    (write_binary : ustr -> option ustr) (fs : files)
    (expected_file result_file : String.string)
    (remove_file_date ignore_headers : bool)
    (text : ustr) (scan_results r : json) :
  fs result_file = Some text ->
  json_loads text = Some scan_results ->
  load_scan_results py_lt scan_results = Ok r ->
  (write_binary (json_dumps false r) = None ->
   check_json_scan py_lt json_loads json_dumps write_binary fs
     expected_file result_file true remove_file_date ignore_headers =
   (write_file fs expected_file [], Raise TypeError)) /\
  (forall written,
     write_binary (json_dumps false r) = Some written ->
     json_loads written = Some r ->
     well_ordered py_lt scan_results = true ->
     check_json_scan py_lt json_loads json_dumps write_binary fs
       expected_file result_file true remove_file_date ignore_headers =
     (write_file fs expected_file written, Ok tt) /\
     snd (check_json_scan py_lt json_loads json_dumps write_binary
            (write_file fs expected_file written)
            expected_file result_file false remove_file_date
            ignore_headers) = Ok tt).
Proof.
  intros Hfs Hl Hr.
  assert (L0 : load_json_result py_lt json_loads fs result_file
                 remove_file_date = Ok r).
  { unfold load_json_result, load_json_result_from_string.
    rewrite Hfs, Hl. exact Hr. }
  split.
  - intros Hn. unfold check_json_scan. rewrite L0, Hn. reflexivity.
  - intros written Hwr Hrt Hw.
    assert (Hagain := @load_scan_results_again py_lt scan_results r Hw Hr).
    destruct (load_scan_results_mapping _ _ Hr) as [d Ed].
    set (fs1 := write_file fs expected_file written).
    assert (L1 : load_json_result py_lt json_loads fs1 expected_file
                   remove_file_date = Ok r).
    { unfold load_json_result, load_json_result_from_string, fs1, write_file.
      rewrite String.eqb_refl, Hrt. exact Hagain. }
    assert (L2 : load_json_result py_lt json_loads fs1 result_file
                   remove_file_date = Ok r).
    { unfold load_json_result, load_json_result_from_string, fs1, write_file.
      destruct (String.eqb result_file expected_file).
      - rewrite Hrt. exact Hagain.
      - rewrite Hfs, Hl. exact Hr. }
    split.
    + unfold check_json_scan. rewrite L0, Hwr. fold fs1.
      unfold check_loaded. rewrite L1.
      subst r. destruct ignore_headers; cbn; rewrite ustr_eqb_refl;
        reflexivity.
    + unfold check_json_scan. rewrite L2.
      unfold check_loaded. rewrite L1.
      subst r. destruct ignore_headers; cbn; rewrite ustr_eqb_refl;
        reflexivity.
Qed.

Lemma check_json_scan_regen_witness :
  (write_binary_py2 (dumps false scan_mixed_loaded) = None ->
   check_json_scan py3_lt loads_regen dumps write_binary_py2 example_files
     "expected.json" "mixed.json" true false false =
   (write_file example_files "expected.json" [], Raise TypeError)) /\
  (forall written,
     write_binary_py2 (dumps false scan_mixed_loaded) = Some written ->
     loads_regen written = Some scan_mixed_loaded ->
     well_ordered py3_lt scan_mixed = true ->
     check_json_scan py3_lt loads_regen dumps write_binary_py2 example_files
       "expected.json" "mixed.json" true false false =
     (write_file example_files "expected.json" written, Ok tt) /\
     snd (check_json_scan py3_lt loads_regen dumps write_binary_py2
            (write_file example_files "expected.json" written)
            "expected.json" "mixed.json" false false false) = Ok tt).
Proof.
  apply (@check_json_scan_regen py3_lt loads_regen dumps write_binary_py2
           example_files "expected.json" "mixed.json" false false
           (dumps false scan_mixed) scan_mixed scan_mixed_loaded);
    vm_compute; reflexivity.
Defined.

Example check_json_scan_regen_python2 :
  check_json_scan py3_lt loads_regen dumps write_binary_py2 example_files
    "expected.json" "mixed.json" true false false =
  (write_file example_files "expected.json"
     (dumps false scan_mixed_loaded), Ok tt).
Proof. vm_compute. reflexivity. Qed.

Example check_json_scan_regen_python3 :
  check_json_scan py3_lt loads_regen dumps write_binary_py3 example_files
    "tied.json" "mixed.json" true false false =
  (write_file example_files "tied.json" [], Raise TypeError).
Proof. vm_compute. reflexivity. Qed.

(** X9: a file checked against itself, without [regen], never fails the
    assertion: the check returns when the file loads and raises what the
    loading raises when it does not. *)
Theorem check_json_scan_same_file_passes
    (py_lt : json -> json -> option bool) (json_loads : ustr -> option json)
    (json_dumps : bool -> json -> ustr)
    (write_binary : ustr -> option ustr) (fs : files)
    (file : String.string) (remove_file_date ignore_headers : bool) :
  snd (check_json_scan py_lt json_loads json_dumps write_binary fs file
         file
         false remove_file_date ignore_headers) =
  match load_json_result py_lt json_loads fs file remove_file_date with
  | Ok _ => Ok tt
  | Raise e => Raise e
  end.
Proof.
  unfold check_json_scan, check_loaded.
  destruct (load_json_result py_lt json_loads fs file remove_file_date)
    as [r|e] eqn:L; [|reflexivity].
  assert (M : exists d, r = JDict d).
  { unfold load_json_result, load_json_result_from_string in L.
    destruct (fs file); [|discriminate].
    destruct (json_loads u0); [|discriminate].
    apply (load_scan_results_mapping _ _ L). }
  destruct M as [d ->].
  destruct ignore_headers; cbn; rewrite ustr_eqb_refl; reflexivity.
Qed.

(** X10: with no delta or with one, nothing is compared: the scan
    results load whatever the factors and the score are, mappings and
    [None] included, and the deltas are returned as they came. *)
Theorem load_scan_results_at_most_one_delta
    (py_lt : json -> json -> option bool) (d : dict) (ss : list ustr)
    (ds : list json) :
  dict_get k_errors d = Some (JList (List.map JStr ss)) ->
  dict_get k_deltas d = Some (JList ds) ->
  List.length ds <= 1 ->
  forallb (has_item k_factors) ds = true ->
  forallb (has_item k_score) ds = true ->
  exists r,
    load_scan_results py_lt (JDict d) = Ok r /\ deltas_of r = ds.
Proof.
  intros He Hd Hlen Hf Hs.
  assert (S : forall k reverse,
            forallb (has_item k) ds = true ->
            list_sort py_lt (getitem k) reverse ds = Ok ds).
  { intros k reverse Hk. unfold list_sort.
    rewrite (mapM_returns (getitem k) (item k)).
    2:{ intros a Ha. apply getitem_item.
        rewrite forallb_forall in Hk. apply Hk, Ha. }
    destruct ds as [|x [|y ds]]; [| |simpl in Hlen; lia];
      destruct reverse; reflexivity. }
  unfold load_scan_results, streamline_headers.
  rewrite !dict_get_pop_ne, He by reflexivity.
  rewrite streamline_errors_strings.
  set (d1 := dict_set k_errors _ _).
  assert (Hd1 : dict_get k_deltas d1 = Some (JList ds)).
  { unfold d1. rewrite dict_get_set_ne, !dict_get_pop_ne by reflexivity.
    exact Hd. }
  assert (S1 : sort_deltas py_lt k_factors false (JDict d1) =
               Ok (JDict (dict_set k_deltas (JList ds) d1))).
  { unfold sort_deltas.
    replace (getitem k_deltas (JDict d1)) with (Ok (JList ds))
      by (unfold getitem; rewrite Hd1; reflexivity).
    cbn [bind]. rewrite (S k_factors false Hf). reflexivity. }
  assert (S2 : sort_deltas py_lt k_score true
                 (JDict (dict_set k_deltas (JList ds) d1)) =
               Ok (JDict (dict_set k_deltas (JList ds)
                            (dict_set k_deltas (JList ds) d1)))).
  { unfold sort_deltas.
    replace (getitem k_deltas (JDict (dict_set k_deltas (JList ds) d1)))
      with (Ok (JList ds))
      by (unfold getitem; rewrite dict_get_set_eq; reflexivity).
    cbn [bind]. rewrite (S k_score true Hs). reflexivity. }
  rewrite S1. cbn [bind]. rewrite S2.
  eexists. split; [reflexivity|].
  unfold deltas_of, item, getitem. rewrite dict_get_set_eq. reflexivity.
Qed.

Lemma load_scan_results_at_most_one_delta_witness :
  exists r,
    load_scan_results py3_lt
      (JDict (scan_entries traceback [single_mapping_delta])) = Ok r /\
    deltas_of r = [single_mapping_delta].
Proof.
  apply (@load_scan_results_at_most_one_delta py3_lt
           (scan_entries traceback [single_mapping_delta])
           [u "Traceback:" ++ [LF] ++ u " in scan" ++ [LF] ++ u "IOError"]
           [single_mapping_delta]);
    (reflexivity || (simpl; lia)).
Defined.

(* ------------------------------------------------------------------ *)
(** ** The options of a scan *)

Lemma contains_app x l l' :
  contains x (l ++ l') = contains x l || contains x l'.
Proof. unfold contains. apply existsb_app. Qed.

(** X11: [add_windows_extra_timeout] only ever adds at the end; off
    Windows, or when the caller has given a ['--timeout'], the options
    are left as they are; on Windows the result has a ['--timeout']; and
    a second call adds nothing. *)
Theorem add_windows_extra_timeout_spec (on_windows : bool)
    (options : list ustr) (timeout timeout' : ustr) :
  (exists extra,
     add_windows_extra_timeout on_windows options timeout =
     options ++ extra) /\
  (on_windows = false \/ contains o_timeout options = true ->
   add_windows_extra_timeout on_windows options timeout = options) /\
  (on_windows = true ->
   contains o_timeout
     (add_windows_extra_timeout on_windows options timeout) = true) /\
  add_windows_extra_timeout on_windows
    (add_windows_extra_timeout on_windows options timeout) timeout' =
  add_windows_extra_timeout on_windows options timeout.
Proof.
  unfold add_windows_extra_timeout.
  destruct on_windows; cbn [andb].
  - destruct (contains o_timeout options) eqn:C; cbn [negb].
    + rewrite C. cbn [negb]. repeat split; auto.
      exists []. rewrite app_nil_r. reflexivity.
    + assert (C' : contains o_timeout (options ++ [o_timeout; timeout])
                   = true).
      { rewrite contains_app. unfold contains at 2. cbn [existsb].
        rewrite ustr_eqb_refl. rewrite orb_true_r. reflexivity. }
      rewrite C'. cbn [negb]. repeat split; auto.
      * eexists. reflexivity.
      * intros [H|H]; discriminate.
  - repeat split; auto; try discriminate.
    exists []. rewrite app_nil_r. reflexivity.
Qed.

Lemma py_eq_str (v : json) (s : ustr) :
  py_eq v (JStr s) = true <-> v = JStr s.
Proof.
  destruct v as [| b | z | a | l | d]; simpl;
    try (split; [discriminate | discriminate]).
  rewrite ustr_eqb_eq. split; [intros ->; reflexivity|].
  intros E; inversion E; reflexivity.
Qed.

(** X12: on a mapping [remove_windows_extra_timeout] does not raise; on
    Windows the mapping afterwards does not give [timeout] for
    ['--timeout']; a ['--timeout'] of another value, and every other
    entry, is left as it is, and off Windows so is the whole mapping. *)
Theorem remove_windows_extra_timeout_spec (on_windows : bool) (d : dict)
    (timeout : ustr) :
  exists d',
    remove_windows_extra_timeout on_windows (JDict d) timeout =
      (JDict d', None) /\
    (on_windows = true -> dict_get o_timeout d' <> Some (JStr timeout)) /\
    (on_windows = false \/ dict_get o_timeout d <> Some (JStr timeout) ->
     d' = d) /\
    filter (fun kv => negb (ustr_eqb o_timeout (fst kv))) d' =
    filter (fun kv => negb (ustr_eqb o_timeout (fst kv))) d.
Proof.
  unfold remove_windows_extra_timeout.
  destruct on_windows.
  2:{ exists d. repeat split; auto. discriminate. }
  destruct (truthy (JDict d)) eqn:T.
  2:{ exists d. repeat split; auto.
      destruct d; [simpl; discriminate | simpl in T; discriminate]. }
  destruct (py_eq match dict_get o_timeout d with
                  | Some v => v
                  | None => JNull
                  end (JStr timeout)) eqn:E.
  - apply py_eq_str in E.
    exists (dict_pop o_timeout d). split; [reflexivity|].
    split; [|split].
    + intros _. rewrite dict_get_pop_eq. discriminate.
    + intros [H|H]; [discriminate|].
      destruct (dict_get o_timeout d); [|discriminate].
      subst. congruence.
    + unfold dict_pop. rewrite filter_filter_andb.
      apply filter_ext. intros kv. apply andb_diag.
  - exists d. split; [reflexivity|]. split; [|split; auto].
    intros _ H. rewrite H in E.
    assert (F : py_eq (JStr timeout) (JStr timeout) = true)
      by (apply py_eq_str; reflexivity).
    congruence.
Qed.

Section RunnerFacts.
Variable on_windows : bool.
Variable Where : Type.
Variable on_linux : bool.
Variable scancode_root_dir : ustr.
Variable path_join : ustr -> ustr -> bool -> option ustr.
Variable execute2 : ustr -> list ustr -> Where -> Where -> Z * ustr * ustr.
Variable invoke : bool -> list ustr -> Where -> Z * ustr.

Lemma scan_options_prepared options test_mode :
  (if test_mode &&
      negb (contains o_test_mode
              (add_windows_extra_timeout on_windows options
                 WINDOWS_CI_TIMEOUT))
   then add_windows_extra_timeout on_windows options WINDOWS_CI_TIMEOUT
        ++ [o_test_mode]
   else add_windows_extra_timeout on_windows options WINDOWS_CI_TIMEOUT) =
  scan_options on_windows test_mode options.
Proof.
  unfold scan_options, add_windows_extra_timeout.
  destruct (on_windows && negb (contains o_timeout options)).
  - rewrite contains_app.
    replace (contains o_test_mode [o_timeout; WINDOWS_CI_TIMEOUT])
      with false by reflexivity.
    rewrite orb_false_r.
    destruct (test_mode && negb (contains o_test_mode options)).
    + rewrite <- app_assoc. reflexivity.
    + rewrite app_nil_r. reflexivity.
  - destruct (test_mode && negb (contains o_test_mode options));
      cbn [app]; [|rewrite app_nil_r]; reflexivity.
Qed.

Lemma run_scan_plain_options options cwd test_mode expected_rc env :
  fst (run_scan_plain on_windows on_linux scancode_root_dir path_join
         execute2 options cwd test_mode expected_rc env) =
  scan_options on_windows test_mode options.
Proof.
  rewrite <- scan_options_prepared. unfold run_scan_plain.
  destruct (path_join scancode_root_dir (u "deltacode") on_linux);
    [|reflexivity].
  destruct (execute2 _ _ _ _) as [[rc out] err].
  destruct (negb (Z.eqb rc expected_rc)); reflexivity.
Qed.

Lemma scan_options_again options test_mode :
  scan_options on_windows test_mode
    (scan_options on_windows test_mode options) =
  scan_options on_windows test_mode options.
Proof.
  set (args := scan_options on_windows test_mode options).
  assert (T : on_windows = true -> contains o_timeout args = true).
  { intros W. unfold args, scan_options. rewrite W. cbn [andb].
    rewrite !contains_app.
    destruct (contains o_timeout options); [reflexivity|].
    cbn [negb]. replace (contains o_timeout [o_timeout; WINDOWS_CI_TIMEOUT])
      with true by reflexivity.
    rewrite orb_true_r. reflexivity. }
  assert (M : test_mode = true -> contains o_test_mode args = true).
  { intros W. unfold args, scan_options. rewrite W. cbn [andb].
    rewrite !contains_app.
    destruct (contains o_test_mode options); [reflexivity|].
    cbn [negb]. replace (contains o_test_mode [o_test_mode])
      with true by reflexivity.
    rewrite !orb_true_r. reflexivity. }
  unfold scan_options at 1. fold args.
  destruct on_windows; [rewrite (T eq_refl)|];
    (destruct test_mode; [rewrite (M eq_refl)|]);
    cbn [andb negb app]; rewrite !app_nil_r; reflexivity.
Qed.

(** X13: [run_scan_plain] leaves the options of the caller extended at
    their end by ['--timeout'] and its value exactly when on Windows
    they had no ['--timeout'], and by ['--test-mode'] exactly when in
    test mode they had none.  It raises [TypeError] exactly when the
    location of the command cannot be joined, as with the byte string of
    Linux on Python 3; otherwise it runs the command on these options,
    returns what the command returned exactly when the return code is
    the expected one, and fails an assertion when it is another.  Run
    again on the options it has left, it leaves them as they are. *)
Theorem run_scan_plain_spec (options : list ustr) (cwd env cwd' env' : Where)
    (test_mode : bool) (expected_rc expected_rc' : Z) :
  fst (run_scan_plain on_windows on_linux scancode_root_dir path_join
         execute2 options cwd test_mode expected_rc env) =
    scan_options on_windows test_mode options /\
  (forall e,
     snd (run_scan_plain on_windows on_linux scancode_root_dir path_join
            execute2 options cwd test_mode expected_rc env) = Raised e <->
     path_join scancode_root_dir (u "deltacode") on_linux = None /\
     e = TypeError) /\
  (forall v,
     snd (run_scan_plain on_windows on_linux scancode_root_dir path_join
            execute2 options cwd test_mode expected_rc env) = Returned v <->
     exists scan_cmd,
       path_join scancode_root_dir (u "deltacode") on_linux
         = Some scan_cmd /\
       execute2 scan_cmd (scan_options on_windows test_mode options)
         cwd env = v /\
       fst (fst v) = expected_rc) /\
  ((exists message,
      snd (run_scan_plain on_windows on_linux scancode_root_dir path_join
             execute2 options cwd test_mode expected_rc env)
      = AssertionFailed message) <->
   exists scan_cmd,
     path_join scancode_root_dir (u "deltacode") on_linux
       = Some scan_cmd /\
     fst (fst (execute2 scan_cmd
                 (scan_options on_windows test_mode options) cwd env))
       <> expected_rc) /\
  fst (run_scan_plain on_windows on_linux scancode_root_dir path_join
         execute2 (scan_options on_windows test_mode options)
         cwd' test_mode expected_rc' env') =
    scan_options on_windows test_mode options.
Proof.
  split; [apply run_scan_plain_options|].
  split; [|split; [|split]].
  - intros e. unfold run_scan_plain. rewrite scan_options_prepared.
    destruct (path_join scancode_root_dir (u "deltacode") on_linux)
      as [cmd|].
    + destruct (execute2 cmd _ cwd env) as [[rc out] err].
      destruct (negb (Z.eqb rc expected_rc)); cbn [snd];
        split; try discriminate; intros [H _]; discriminate H.
    + cbn [snd]. split.
      * intros E; inversion E. split; reflexivity.
      * intros [_ ->]. reflexivity.
  - intros v. unfold run_scan_plain. rewrite scan_options_prepared.
    destruct (path_join scancode_root_dir (u "deltacode") on_linux)
      as [cmd|].
    + destruct (execute2 cmd _ cwd env) as [[rc out] err] eqn:X.
      destruct (Z.eqb rc expected_rc) eqn:Q; cbn [negb snd].
      * apply Z.eqb_eq in Q. split.
        -- intros E; inversion E; subst v. exists cmd.
           split; [reflexivity|]. split; [exact X | exact Q].
        -- intros [c [E [<- _]]]. inversion E; subst c.
           rewrite X. reflexivity.
      * apply Z.eqb_neq in Q. split; [discriminate|].
        intros [c [E [<- H]]]. inversion E; subst c.
        rewrite X in H. cbn in H. contradiction.
    + cbn [snd]. split; [discriminate|].
      intros [c [E _]]. discriminate E.
  - unfold run_scan_plain. rewrite scan_options_prepared.
    destruct (path_join scancode_root_dir (u "deltacode") on_linux)
      as [cmd|].
    + destruct (execute2 cmd _ cwd env) as [[rc out] err] eqn:X.
      destruct (Z.eqb rc expected_rc) eqn:Q; cbn [negb snd].
      * apply Z.eqb_eq in Q. split.
        -- intros [m E]. discriminate E.
        -- intros [c [E H]]. inversion E; subst c.
           rewrite X in H. cbn in H. contradiction.
      * apply Z.eqb_neq in Q. split.
        -- intros _. exists cmd. split; [reflexivity|].
           rewrite X. exact Q.
        -- intros _. eexists. reflexivity.
    + cbn [snd]. split.
      * intros [m E]. discriminate E.
      * intros [c [E _]]. discriminate E.
  - rewrite run_scan_plain_options. apply scan_options_again.
Qed.

(** X14: [run_scan_click] hands the runner the options of the caller,
    with a ['--timeout'] at their end on Windows only; it never adds
    ['--test-mode'], whatever [test_mode] says; and it returns the result
    of the runner exactly when the exit code is the expected one. *)
Theorem run_scan_click_spec (options : list ustr) (monkeypatch : bool)
    (env : Where) (test_mode : bool) (expected_rc : Z) :
  fst (run_scan_click on_windows invoke options monkeypatch test_mode
         expected_rc env) =
    add_windows_extra_timeout on_windows options WINDOWS_CI_TIMEOUT /\
  contains o_test_mode
    (fst (run_scan_click on_windows invoke options monkeypatch test_mode
            expected_rc env)) = contains o_test_mode options /\
  (forall v,
     snd (run_scan_click on_windows invoke options monkeypatch test_mode
            expected_rc env) = Returned v <->
     invoke monkeypatch
       (add_windows_extra_timeout on_windows options WINDOWS_CI_TIMEOUT)
       env = v /\
     fst v = expected_rc).
Proof.
  assert (F : fst (run_scan_click on_windows invoke options monkeypatch
                     test_mode expected_rc env) =
              add_windows_extra_timeout on_windows options
                WINDOWS_CI_TIMEOUT).
  { unfold run_scan_click.
    destruct (negb (Z.eqb (fst (invoke monkeypatch _ env)) expected_rc));
      reflexivity. }
  split; [exact F|]. split.
  - rewrite F. unfold add_windows_extra_timeout.
    destruct (on_windows && negb (contains o_timeout options));
      [|reflexivity].
    rewrite contains_app.
    replace (contains o_test_mode [o_timeout; WINDOWS_CI_TIMEOUT])
      with false by reflexivity.
    apply orb_false_r.
  - intros v. unfold run_scan_click.
    set (res := invoke monkeypatch
                  (add_windows_extra_timeout on_windows options
                     WINDOWS_CI_TIMEOUT) env).
    destruct (Z.eqb (fst res) expected_rc) eqn:Q; cbn [negb snd].
    + apply Z.eqb_eq in Q. split.
      * intros E; inversion E. split; [reflexivity | exact Q].
      * intros [<- _]. reflexivity.
    + apply Z.eqb_neq in Q. split; [discriminate|].
      intros [<- H]. contradiction.
Qed.
End RunnerFacts.
